(** * file_sync.py: one-way directory synchronisation with a dated report

    A shallow embedding of [src/file_sync.py] and the verification of its
    specification.

    Layout of the development:
    - [Py]: the Python values the program manipulates (exceptions, outcomes,
      paths, string formatting) and a small state-and-exception monad;
    - [OS]: the operating-system interface the program is written against
      ([os.path.exists], [os.walk], [shutil.copy2], ...), as a type class;
    - [Prog]: the program itself ([sync_copy], [write_report],
      [write_error_report], [main]), written once for every [OS];
    - [TreeFS]: a concrete file system (a read-only source tree mounted at
      [/src], everything else a finite map from paths to objects), the
      instance on which the examples run;
    - the theorems, generic in the [OS] where the property does not depend
      on what the file system does, on [TreeFS] where it does. *)

From Stdlib Require Import ZArith String Ascii List Lia DecimalString.
From stdpp Require Import base option list gmap strings.

Local Open Scope string_scope.
Local Open Scope Z_scope.
Local Open Scope list_scope.

(* ===================================================================== *)
(** * Python values *)
(* ===================================================================== *)

Module Py.

(** The exception classes that occur in the program or in the library calls
    it makes.  [OSError] stands for an [OSError] of any other subclass,
    [Exception] for an [Exception] of any other class.  Everything here is a
    subclass of Python's [Exception]: [BaseException]s that are not
    ([KeyboardInterrupt], [SystemExit]) are outside the model. *)
Inductive exn_class :=
| FileNotFoundError
| NotADirectoryError
| FileExistsError
| IsADirectoryError
| PermissionError
| SameFileError
| OSError
| NameError
| Exception.

(** An exception object: its class and [str(e)]. *)
Record exn := mk_exn { exn_cls : exn_class; exn_str : string }.

(** [isinstance(e, OSError)]: which handlers an [except OSError] clause
    takes.  [shutil.SameFileError] derives from [shutil.Error], itself an
    [OSError]. *)
Definition is_OSError (e : exn) : bool :=
  match exn_cls e with
  | NameError | Exception => false
  | _ => true
  end.

(** The result of evaluating a Python expression or statement: a value, or
    an exception on its way up the stack. *)
Inductive outcome (A : Type) :=
| Ret (a : A)
| Raise (e : exn).
Arguments Ret {A} a.
Arguments Raise {A} e.

Definition is_Ret {A} (o : outcome A) : bool :=
  match o with Ret _ => true | Raise _ => false end.

(** ** A state-and-exception monad

    A computation reads and writes a store [S] and either returns or
    raises; the store a raising computation leaves behind is kept, as in
    Python, where a mutation made before the [raise] is not undone. *)
Definition M (S A : Type) : Type := S → outcome A * S.

Section monad.
Context {S : Type}.

Definition ret {A} (a : A) : M S A := λ s, (Ret a, s).

Definition bind {A B} (m : M S A) (k : A → M S B) : M S B :=
  λ s, match m s with
       | (Ret a, s') => k a s'
       | (Raise e, s') => (Raise e, s')
       end.

Definition raise {A} (e : exn) : M S A := λ s, (Raise e, s).

Definition gets {A} (f : S → A) : M S A := λ s, (Ret (f s), s).

Definition modify (f : S → S) : M S unit := λ s, (Ret tt, f s).

(** A call that only looks at the store, and may raise. *)
Definition observe {A} (f : S → outcome A) : M S A := λ s, (f s, s).

(** [try: body  except Exception as e: handler(e)]. *)
Definition try_except {A} (body : M S A) (handler : exn → M S A) : M S A :=
  λ s, match body s with
       | (Ret a, s') => (Ret a, s')
       | (Raise e, s') => handler e s'
       end.

(** [try: body  except OSError: fallback]; an exception of another class
    goes on up. *)
Definition try_except_OSError {A} (body : M S A) (fallback : M S A) : M S A :=
  λ s, match body s with
       | (Ret a, s') => (Ret a, s')
       | (Raise e, s') => if is_OSError e then fallback s' else (Raise e, s')
       end.

(** [for x in l: body(x)]: the first exception that a body raises ends
    the loop. *)
Fixpoint for_each {A} (l : list A) (body : A → M S unit) : M S unit :=
  match l with
  | [] => ret tt
  | x :: l' => bind (body x) (λ _, for_each l' body)
  end.
End monad.

(** A computation on a part [T] of the store [S]. *)
Definition zoom {S T A} (get : S → T) (set : T → S → S) (m : M T A) : M S A :=
  λ s, let '(o, t) := m (get s) in (o, set t s).

Declare Scope py_scope.
Delimit Scope py_scope with py.
Notation "x <- m ;; k" := (bind m (λ x, k))
  (at level 20, m at level 99, k at level 200, only parsing) : py_scope.
Notation "m ;; k" := (bind m (λ _, k))
  (at level 100, k at level 200, only parsing, right associativity) : py_scope.

(** ** Paths

    A path is the list of its components, in normalised absolute form
    ([/a/b] is [["a"; "b"]]); a relative path is the list of its components
    too.  [os.path.abspath] is the identity on such paths, and the program
    calls it on both of its arguments before anything else. *)
Definition path := list string.

Definition os_path_abspath (p : path) : path := p.

(** [os.path.join(p, q)] for a relative [q]. *)
Definition os_path_join (p : path) (q : path) : path := p ++ q.

(** The text of an absolute path. *)
Definition abs_str (p : path) : string := "/" +:+ String.concat "/" p.

(** The text of a relative path. *)
Definition rel_str (p : path) : string := String.concat "/" p.

Fixpoint strip_common (p start : path) : path * path :=
  match p, start with
  | x :: p', y :: start' =>
      if String.eqb x y then strip_common p' start' else (p, start)
  | _, _ => (p, start)
  end.

(** [os.path.relpath(p, start)] (posixpath): drop the common prefix, climb
    out of what is left of [start] with [..], and answer [.] when nothing
    remains. *)
Definition os_path_relpath (p start : path) : path :=
  let '(p', start') := strip_common p start in
  match repeat ".." (length start') ++ p' with
  | [] => ["."]
  | r => r
  end.

(** ** Formatting *)

(** The line feed an f-string writes for a backslash-n. *)
Definition nl : string := String "010"%char "".

(** [str(n)] of a non-negative [int], as an f-string writes it. *)
Definition str_int (n : nat) : string :=
  NilEmpty.string_of_uint (Nat.to_uint n).

(** A calendar date, as [datetime.now(tz)] gives it. *)
Record date := mk_date { year : nat; month : nat; day : nat }.

(** [s.zfill(width)]: zeros on the left up to [width] characters. *)
Definition zfill (width : nat) (s : string) : string :=
  Nat.iter (width - String.length s) (String "0"%char) s.

(** [now.strftime("%Y-%m-%d")]. *)
Definition strftime_Ymd (d : date) : string :=
  zfill 4 (str_int (year d)) +:+ "-" +:+ zfill 2 (str_int (month d))
    +:+ "-" +:+ zfill 2 (str_int (day d)).

End Py.
Import Py.
Local Open Scope py_scope.

(* ===================================================================== *)
(** * The operating-system interface *)
(* ===================================================================== *)

(** What the program asks of the system it runs on.  [world] is the state
    of the file system and of the clock.

    [os_walk src w] is the sequence of triples that
    [os.walk(src, followlinks=False)] yields, top-down, on the world [w] in
    which the loop starts: the program reads the source tree and writes
    under the destination only, so what it does between two triples does
    not change what the generator yields (source and destination that
    overlap are outside the model).  [os.walk] swallows the errors of its
    own directory scans and never raises.

    A call that raises may still have changed the world (a copy that fails
    half-way leaves a partial file), so every call that writes is a
    computation of [M world]. *)
Class OS (world : Type) := {
  os_path_exists : path → world → bool;
  os_path_isdir : path → world → bool;
  os_path_getsize : path → world → outcome Z;
  os_walk : path → world → list (path * list string * list string);
  (** [os.makedirs(p, exist_ok=True)] *)
  os_makedirs : path → M world unit;
  (** [shutil.copy2(src, dst, follow_symlinks=b)] *)
  shutil_copy2 : path → path → bool → M world unit;
  (** [with open(p, "w", encoding="utf-8") as f:] followed by the writes
      whose concatenation is the given text *)
  open_write : path → string → M world unit;
  (** [datetime.now(ZoneInfo("America/Chicago"))], or [datetime.now()]
      where the time zone data is missing *)
  datetime_now : world → date;
}.

(* ===================================================================== *)
(** * The program *)
(* ===================================================================== *)

Module Prog.
Section prog.
Context {world : Type} `{!OS world}.

(** [chicago_today_str()] (lines 26-37): both branches and the handler end
    in a [datetime.now], so the function always returns. *)
Definition chicago_today_str : M world string :=
  gets (λ w, strftime_Ymd (datetime_now w)).

(** ** sync_copy (lines 44-113) *)

(** The dictionary [results] of [sync_copy]: it is created with the four
    keys and only ever indexed by them, so it is a record of four lists. *)
Record SyncResult := mk_result {
  res_new : list string;
  res_overwritten : list string;
  res_skipped : list string;
  res_errors : list string;
}.

Definition empty_result : SyncResult := mk_result [] [] [] [].

(** The store of the loop: the list object [results] and the world. *)
Record sync_state := mk_sync_state {
  ss_results : SyncResult;
  ss_world : world;
}.

Definition set_world (w : world) (st : sync_state) : sync_state :=
  mk_sync_state (ss_results st) w.

Definition on_results (f : SyncResult → SyncResult) : M sync_state unit :=
  modify (λ st, mk_sync_state (f (ss_results st)) (ss_world st)).

Definition add_new (x : string) (r : SyncResult) : SyncResult :=
  mk_result (res_new r ++ [x]) (res_overwritten r) (res_skipped r) (res_errors r).
Definition add_overwritten (x : string) (r : SyncResult) : SyncResult :=
  mk_result (res_new r) (res_overwritten r ++ [x]) (res_skipped r) (res_errors r).
Definition add_skipped (x : string) (r : SyncResult) : SyncResult :=
  mk_result (res_new r) (res_overwritten r) (res_skipped r ++ [x]) (res_errors r).
Definition add_errors (x : string) (r : SyncResult) : SyncResult :=
  mk_result (res_new r) (res_overwritten r) (res_skipped r) (res_errors r ++ [x]).

(** [results["new"].append(x)] and its three siblings. *)
Definition append_new (x : string) : M sync_state unit :=
  on_results (add_new x).
Definition append_overwritten (x : string) : M sync_state unit :=
  on_results (add_overwritten x).
Definition append_skipped (x : string) : M sync_state unit :=
  on_results (add_skipped x).
Definition append_errors (x : string) : M sync_state unit :=
  on_results (add_errors x).

(** A system call, run on the world of the loop's store. *)
Definition sys {A} (m : M world A) : M sync_state A :=
  zoom ss_world set_world m.

(** The name [false] of lines 102 and 105.  The module binds no such name
    and neither do the builtins (the constant is [False]), so evaluating it
    raises [NameError]; [str] of that exception is the text below. *)
Definition name_false : M sync_state bool :=
  raise (mk_exn NameError "name 'false' is not defined").

(** [try: s = os.path.getsize(p)  except OSError: s = None]
    (lines 90-93 and 94-97). *)
Definition getsize_or_None (p : path) : M sync_state (option Z) :=
  try_except_OSError
    (n <- sys (observe (os_path_getsize p)) ;; ret (Some n))
    (ret None).

(** The body of the [try] of lines 81-109, for one file name. *)
Definition sync_file_body (dst src_path dst_path : path) : M sync_state unit :=
  ex <- sys (gets (os_path_exists dst_path)) ;;
  if negb ex then
    (* lines 83-87 *)
    (sys (shutil_copy2 src_path dst_path false) ;;
     append_new (rel_str (os_path_relpath dst_path dst)))
  else
    (* lines 90-97 *)
    (src_size <- getsize_or_None src_path ;;
     dst_size <- getsize_or_None dst_path ;;
     match src_size, dst_size with
     | None, _ | _, None =>
         (* lines 99-103 *)
         follow <- name_false ;;
         sys (shutil_copy2 src_path dst_path follow) ;;
         append_overwritten (rel_str (os_path_relpath dst_path dst))
     | Some s, Some d =>
         if negb (s =? d) then
           (* lines 104-106 *)
           (follow <- name_false ;;
            sys (shutil_copy2 src_path dst_path follow) ;;
            append_overwritten (rel_str (os_path_relpath dst_path dst)))
         else
           (* lines 107-109 *)
           append_skipped (rel_str (os_path_relpath dst_path dst))
     end).

(** One turn of the inner loop (lines 77-111). *)
Definition sync_file (src dst root dst_dir : path) (fname : string)
  : M sync_state unit :=
  let src_path := os_path_join root [fname] in
  let dst_path := os_path_join dst_dir [fname] in
  try_except
    (sync_file_body dst src_path dst_path)
    (λ e, append_errors
            (rel_str (os_path_relpath src_path src) +:+ " -> " +:+ exn_str e)).

(** The destination directory of a walked directory (lines 70-73). *)
Definition mirror_dir (src dst root : path) : path :=
  let rel_dir := os_path_relpath root src in
  let rel_dir := if decide (rel_dir = ["."]) then [] else rel_dir in
  os_path_join dst rel_dir.

(** One turn of the outer loop (lines 68-111). *)
Definition sync_dir (src dst : path)
    (triple : path * list string * list string) : M sync_state unit :=
  let '(root, dirs, files) := triple in
  let dst_dir := mirror_dir src dst root in
  sys (os_makedirs dst_dir) ;;
  for_each files (sync_file src dst root dst_dir).

Definition sync_copy (src dst : path) : M world SyncResult :=
  λ w,
    let src := os_path_abspath src in
    let dst := os_path_abspath dst in
    if negb (os_path_exists src w) then
      (Raise (mk_exn FileNotFoundError ("Source not found: " +:+ abs_str src)), w)
    else if negb (os_path_isdir src w) then
      (Raise (mk_exn NotADirectoryError
                ("Source is not a directory: " +:+ abs_str src)), w)
    else
      match for_each (os_walk src w) (sync_dir src dst)
                     (mk_sync_state empty_result w) with
      | (Ret _, st) => (Ret (ss_results st), ss_world st)
      | (Raise e, st) => (Raise e, ss_world st)
      end.

(** ** write_error_report (lines 116-133) *)

(** The nine [f.write] calls of lines 123-131, in order. *)
Definition error_report_writes (date_str error_message : string) : list string :=
  [ "Report date (America/Chicago): " +:+ date_str +:+ nl;
    "Summary:" +:+ nl;
    "  New files:         0" +:+ nl;
    "  Overwritten files: 0" +:+ nl;
    "  Skipped files:     0" +:+ nl;
    "  Errors:            1" +:+ nl +:+ nl;
    "Errors:" +:+ nl;
    "  " +:+ error_message +:+ nl +:+ nl;
    "End of report" +:+ nl ].

Definition write_error_report (error_message : string)
    (report_directory : path) (file_name : string) : M world path :=
  date_str <- chicago_today_str ;;
  let report_name := date_str +:+ "_" +:+ file_name +:+ ".txt" in
  os_makedirs report_directory ;;
  let report_path := os_path_join report_directory [report_name] in
  open_write report_path
    (String.concat "" (error_report_writes date_str error_message)) ;;
  ret report_path.

(** ** write_report (lines 135-166) *)

(** [results.get(key, [])] on a dictionary of lists. *)
Definition dict_get (results : gmap string (list string)) (key : string)
  : list string :=
  default [] (results !! key).

(** The [f.write] calls of lines 147-164, in order; [if errors:] takes the
    branch when the list is not empty. *)
Definition report_writes (date_str : string)
    (new_count overwritten_count skipped_count : nat) (errors : list string)
  : list string :=
  [ "Report date (America/Chicago): " +:+ date_str +:+ nl;
    "Summary:" +:+ nl;
    "  New files:         " +:+ str_int new_count +:+ nl;
    "  Overwritten files: " +:+ str_int overwritten_count +:+ nl;
    "  Skipped files:     " +:+ str_int skipped_count +:+ nl;
    "  Errors:            " +:+ str_int (length errors) +:+ nl;
    nl ]
  ++ (match errors with
      | [] => []
      | _ :: _ =>
          ["Errors:" +:+ nl]
          ++ map (λ e, "  " +:+ e +:+ nl) errors
          ++ [nl]
      end)
  ++ [ "End of report" +:+ nl ].

(** What lines 141-164 write into the report file, for a given date. *)
Definition report_text (date_str : string)
    (results : gmap string (list string)) : string :=
  let new_count := length (dict_get results "new") in
  let overwritten_count := length (dict_get results "overwritten") in
  let skipped_count := length (dict_get results "skipped") in
  let errors := dict_get results "errors" in
  String.concat ""
    (report_writes date_str new_count overwritten_count skipped_count errors).

Definition write_report (results : gmap string (list string))
    (report_directory : path) (file_name : string) : M world path :=
  date_str <- chicago_today_str ;;
  let report_name := date_str +:+ "_" +:+ file_name +:+ ".txt" in
  os_makedirs report_directory ;;
  let report_path := os_path_join report_directory [report_name] in
  open_write report_path (report_text date_str results) ;;
  ret report_path.

(** ** main (lines 177-217) *)

(** What [parse_args()] returns; the two directories are taken in absolute
    form. *)
Record Args := mk_args {
  args_src : path;
  args_dst : path;
  args_report_dir : option path;
  args_file_name : string;
}.

(** The store of the process: the world and what was printed, one entry
    for each [print]. *)
Record proc_state := mk_proc_state {
  ps_world : world;
  ps_stdout : list string;
}.

Definition io {A} (m : M world A) : M proc_state A :=
  zoom ps_world (λ w st, mk_proc_state w (ps_stdout st)) m.

Definition print (line : string) : M proc_state unit :=
  modify (λ st, mk_proc_state (ps_world st) (ps_stdout st ++ [line])).

(** The dictionary that [sync_copy] returns. *)
Definition result_dict (r : SyncResult) : gmap string (list string) :=
  <["new" := res_new r]> (<["overwritten" := res_overwritten r]>
    (<["skipped" := res_skipped r]> (<["errors" := res_errors r]> ∅))).

(** The body of the [try] of lines 184-210. *)
Definition main_body (src dst report_dir : path) (file_name : string)
  : M proc_state unit :=
  ex <- io (gets (os_path_exists src)) ;;
  (if negb ex then
     raise (mk_exn FileNotFoundError
              ("Source directory does not exist: "
                 +:+ abs_str (os_path_abspath src)))
   else ret tt) ;;
  isd <- io (gets (os_path_isdir src)) ;;
  (if negb isd then
     raise (mk_exn NotADirectoryError
              ("Source is not a directory: " +:+ abs_str (os_path_abspath src)))
   else ret tt) ;;
  try_except (io (os_makedirs dst))
    (λ e, raise (mk_exn PermissionError
                   ("Cannot create destination directory: "
                      +:+ abs_str (os_path_abspath dst)
                      +:+ " (" +:+ exn_str e +:+ ")"))) ;;
  print ("Copying from: " +:+ abs_str src) ;;
  print ("Copying to:   " +:+ abs_str dst) ;;
  results <- io (sync_copy src dst) ;;
  report_path <- io (write_report (result_dict results) report_dir file_name) ;;
  print (nl +:+ "Done.") ;;
  print ("Report written to: " +:+ abs_str report_path) ;;
  print ("New: " +:+ str_int (length (res_new results)) +:+ ", "
         +:+ "Overwritten: " +:+ str_int (length (res_overwritten results))
         +:+ ", "
         +:+ "Skipped: " +:+ str_int (length (res_skipped results)) +:+ ", "
         +:+ "Errors: " +:+ str_int (length (res_errors results))).

(** The handler of lines 212-217. *)
Definition main_handler (report_dir : path) (file_name : string) (exc : exn)
  : M proc_state unit :=
  let error_message := exn_str exc in
  report_path <- io (write_error_report error_message report_dir file_name) ;;
  print ("Fatal error: " +:+ error_message) ;;
  print ("Error report written to: " +:+ abs_str report_path).

Definition main (args : Args) : M proc_state unit :=
  let src := args_src args in
  let dst := args_dst args in
  (* args.report_dir or dst *)
  let report_dir := default dst (args_report_dir args) in
  let file_name := args_file_name args in
  try_except (main_body src dst report_dir file_name)
             (main_handler report_dir file_name).

End prog.
End Prog.
Import Prog.

(* ===================================================================== *)
(** * A concrete file system *)
(* ===================================================================== *)

(** The file system of the examples and of the properties that depend on
    what copying and creating directories do.  It has two volumes:
    - a read-only volume mounted at [/src], a tree of directories and
      regular files (the source tree of a run);
    - a writable volume for every other path, a finite map from the path to
      the object it names.
    A regular file of the source tree may lack the permission to be read
    ([Locked]); it is listed and its size is known, but it cannot be
    opened.  There are no symbolic links and no special files, a file of
    the writable volume can always be read, and outside [/src] a directory
    can always be written to. *)
Module TreeFS.

#[warnings="-register-all"]
Inductive node :=
| File (data : list Byte.byte)
| Locked (data : list Byte.byte)
| Dir (entries : list (string * node)).

(** What a path of the writable volume names. *)
Inductive obj :=
| OFile (data : list Byte.byte)
| ODir.

Record world := mk_world {
  src_tree : node;
  files : gmap path obj;
  (** the calls of [shutil.copy2] so far: source, destination, and
      [follow_symlinks] *)
  copy_log : list (path * path * bool);
  today : date;
}.

Definition mount : string := "src".

(** The path inside the read-only volume, for a path under [/src]. *)
Definition in_mount (p : path) : option path :=
  match p with
  | s :: r => if String.eqb s mount then Some r else None
  | [] => None
  end.

Fixpoint lookup_entry (n : string) (es : list (string * node)) : option node :=
  match es with
  | [] => None
  | (m, c) :: es' => if String.eqb n m then Some c else lookup_entry n es'
  end.

Fixpoint tree_lookup (t : node) (p : path) : option node :=
  match p with
  | [] => Some t
  | n :: p' =>
      match t with
      | Dir es =>
          match lookup_entry n es with
          | Some c => tree_lookup c p'
          | None => None
          end
      | File _ | Locked _ => None
      end
  end.

Definition obj_of_node (t : node) : obj :=
  match t with
  | File d | Locked d => OFile d
  | Dir _ => ODir
  end.

(** [os.stat(p)]: the object a path names, if any.  [/] is a directory. *)
Definition stat (p : path) (w : world) : option obj :=
  match p with
  | [] => Some ODir
  | _ =>
      match in_mount p with
      | Some r => obj_of_node <$> tree_lookup (src_tree w) r
      | None => files w !! p
      end
  end.

Definition quoted (p : path) : string := "'" +:+ abs_str p +:+ "'".

Definition ENOENT (p : path) : exn :=
  mk_exn FileNotFoundError ("[Errno 2] No such file or directory: " +:+ quoted p).
Definition EEXIST (p : path) : exn :=
  mk_exn FileExistsError ("[Errno 17] File exists: " +:+ quoted p).
Definition ENOTDIR (p : path) : exn :=
  mk_exn NotADirectoryError ("[Errno 20] Not a directory: " +:+ quoted p).
Definition EISDIR (p : path) : exn :=
  mk_exn IsADirectoryError ("[Errno 21] Is a directory: " +:+ quoted p).
Definition EROFS (p : path) : exn :=
  mk_exn OSError ("[Errno 30] Read-only file system: " +:+ quoted p).
Definition EACCES (p : path) : exn :=
  mk_exn PermissionError ("[Errno 13] Permission denied: " +:+ quoted p).

Definition exists_ (p : path) (w : world) : bool :=
  match stat p w with Some _ => true | None => false end.

Definition isdir (p : path) (w : world) : bool :=
  match stat p w with Some ODir => true | _ => false end.

(** [os.access(p, os.R_OK)] for a regular file. *)
Definition readable (p : path) (w : world) : bool :=
  match in_mount p with
  | Some r =>
      match tree_lookup (src_tree w) r with
      | Some (Locked _) => false
      | _ => true
      end
  | None => true
  end.

(** The size [os.stat] reports for a directory. *)
Definition dir_size : Z := 4096.

Definition getsize (p : path) (w : world) : outcome Z :=
  match stat p w with
  | Some (OFile d) => Ret (Z.of_nat (length d))
  | Some ODir => Ret dir_size
  | None => Raise (ENOENT p)
  end.

Definition set_files (m : gmap path obj) (w : world) : world :=
  mk_world (src_tree w) m (copy_log w) (today w).

(** [os.mkdir(p)] where nothing is at [p] and the parent is a directory. *)
Definition mkdir (p : path) : M world unit :=
  λ w, match in_mount p with
       | Some _ => (Raise (EROFS p), w)
       | None => (Ret tt, set_files (<[p := ODir]> (files w)) w)
       end.

(** [os.makedirs(done/rest, exist_ok=True)], where [done] is a directory:
    the components of [rest] are created from the outermost in; a regular
    file in the way is [FileExistsError] when it is the path itself, and
    [NotADirectoryError] for the component below it otherwise. *)
Fixpoint makedirs_from (done rest : path) : M world unit :=
  match rest with
  | [] => ret tt
  | n :: rest' =>
      let q := done ++ [n] in
      λ w, match stat q w with
           | Some ODir => makedirs_from q rest' w
           | Some (OFile _) =>
               match rest' with
               | [] => (Raise (EEXIST q), w)
               | n' :: _ => (Raise (ENOTDIR (q ++ [n'])), w)
               end
           | None => (mkdir q ;; makedirs_from q rest') w
           end
  end.

Definition makedirs (p : path) : M world unit := makedirs_from [] p.

Definition basename (p : path) : string := List.last p "".
Definition dirname (p : path) : path := removelast p.

(** [open(p, "wb")] followed by writing [data] and closing. *)
Definition write_file (p : path) (data : list Byte.byte) : M world unit :=
  λ w, match stat p w with
       | Some ODir => (Raise (EISDIR p), w)
       | _ =>
           match stat (dirname p) w with
           | None => (Raise (ENOENT p), w)
           | Some (OFile _) => (Raise (ENOTDIR p), w)
           | Some ODir =>
               match in_mount p with
               | Some _ => (Raise (EROFS p), w)
               | None => (Ret tt, set_files (<[p := OFile data]> (files w)) w)
               end
           end
       end.

Definition log_copy (s d : path) (follow_symlinks : bool) : M world unit :=
  modify (λ w, mk_world (src_tree w) (files w)
                        (copy_log w ++ [(s, d, follow_symlinks)]) (today w)).

(** [shutil.copy2(s, d, follow_symlinks=b)]: into the directory when [d] is
    one; the source is opened for reading first, then the destination for
    writing.  Without symbolic links in the file system the flag changes
    nothing but the log. *)
Definition copy2 (s d : path) (follow_symlinks : bool) : M world unit :=
  log_copy s d follow_symlinks ;;
  is_dir <- gets (isdir d) ;;
  let d := if is_dir then os_path_join d [basename s] else d in
  st_s <- gets (stat s) ;;
  st_d <- gets (stat d) ;;
  can_read <- gets (readable s) ;;
  match st_s with
  | None => raise (ENOENT s)
  | Some ODir => raise (EISDIR s)
  | Some (OFile data) =>
      if decide (s = d) then
        raise (mk_exn SameFileError
                 (quoted s +:+ " and " +:+ quoted d +:+ " are the same file"))
      else if can_read then write_file d data
      else raise (EACCES s)
  end.

Definition open_write_text (p : path) (text : string) : M world unit :=
  write_file p (list_byte_of_string text).

(** *** Walking the two volumes *)

Definition dir_names (es : list (string * node)) : list string :=
  omap (λ '(n, c), match c with Dir _ => Some n | _ => None end) es.

Definition file_names (es : list (string * node)) : list string :=
  omap (λ '(n, c), match c with Dir _ => None | _ => Some n end) es.

(** [os.walk] on the tree [t] at [root]: the directory itself, then each of
    its sub-directories in the order of the listing. *)
Fixpoint walk_tree (root : path) (t : node)
  : list (path * list string * list string) :=
  match t with
  | File _ | Locked _ => []
  | Dir es =>
      (root, dir_names es, file_names es)
        :: flat_map (λ '(n, c), walk_tree (root ++ [n]) c) es
  end.

(** The entries of the directory [p] in the writable volume. *)
Definition listdir (m : gmap path obj) (p : path) : list (string * obj) :=
  omap (λ '(k, o),
          match k with
          | [] => None
          | _ => if decide (dirname k = p) then Some (basename k, o) else None
          end)
       (map_to_list m).

Fixpoint walk_files (fuel : nat) (m : gmap path obj) (root : path)
  : list (path * list string * list string) :=
  match fuel with
  | O => []
  | S fuel' =>
      let es := listdir m root in
      let dirs := omap (λ '(n, o), match o with ODir => Some n | _ => None end) es in
      let nondirs := omap (λ '(n, o), match o with OFile _ => Some n | _ => None end) es in
      (root, dirs, nondirs)
        :: flat_map (λ n, walk_files fuel' m (root ++ [n])) dirs
  end.

Definition walk (top : path) (w : world)
  : list (path * list string * list string) :=
  match in_mount top with
  | Some r =>
      match tree_lookup (src_tree w) r with
      | Some t => walk_tree top t
      | None => []
      end
  | None =>
      if isdir top w then walk_files (S (size (files w))) (files w) top else []
  end.

#[export] Instance tree_os : OS world := {|
  os_path_exists := exists_;
  os_path_isdir := isdir;
  os_path_getsize := getsize;
  os_walk := walk;
  os_makedirs := makedirs;
  shutil_copy2 := copy2;
  open_write := open_write_text;
  datetime_now := today;
|}.

(** *** Source trees *)

(** A name a directory entry can have. *)
Definition valid_name (n : string) : bool :=
  negb (String.eqb n "") && negb (String.eqb n ".") && negb (String.eqb n "..")
  && negb (existsb (Ascii.eqb "/"%char) (list_ascii_of_string n)).

(** A well-formed tree: the entries of a directory have valid names, no two
    of them the same. *)
Fixpoint wf_tree (t : node) : bool :=
  match t with
  | File _ | Locked _ => true
  | Dir es =>
      forallb valid_name (map fst es)
      && bool_decide (NoDup (map fst es))
      && forallb (λ '(_, c), wf_tree c) es
  end.

(** Every regular file of the tree can be read. *)
Fixpoint readable_tree (t : node) : bool :=
  match t with
  | File _ => true
  | Locked _ => false
  | Dir es => forallb (λ '(_, c), readable_tree c) es
  end.

(** The regular files of a tree, as paths relative to [rel], in the order
    of the walk. *)
Fixpoint tree_files (rel : path) (t : node) : list path :=
  match t with
  | File _ | Locked _ => []
  | Dir es =>
      map (λ n, rel ++ [n]) (file_names es)
        ++ flat_map (λ '(n, c), tree_files (rel ++ [n]) c) es
  end.

(** The directories of a tree, the root included, relative to [rel]. *)
Fixpoint tree_dirs (rel : path) (t : node) : list path :=
  match t with
  | File _ | Locked _ => []
  | Dir es => rel :: flat_map (λ '(n, c), tree_dirs (rel ++ [n]) c) es
  end.

(** The directories of the writable volume below [top], relative to it. *)
Definition dirs_below (top : path) (w : world) (rel : path) : Prop :=
  stat (top ++ rel) w = Some ODir.

Definition bytes (s : string) : list Byte.byte := list_byte_of_string s.

(** *** Notions the properties of the file system are stated with *)

(** A path outside the read-only volume, and not the root. *)
Definition writable (p : path) : bool :=
  match p with
  | [] => false
  | s :: _ => negb (String.eqb s mount)
  end.

(** [p] and everything above it are directories. *)
Definition all_dirs (p : path) (w : world) : Prop :=
  ∀ k, (0 < k ≤ length p)%nat → stat (take k p) w = Some ODir.

(** Nothing is below [top] in the writable volume. *)
Definition empty_below (top : path) (m : gmap path obj) : Prop :=
  ∀ q, q ≠ [] → m !! (top ++ q) = None.

(** What is at and below [top] in the writable volume is the tree [t]. *)
Definition mirrors (top : path) (t : node) (m : gmap path obj) : Prop :=
  ∀ q, m !! (top ++ q) = obj_of_node <$> tree_lookup t q.

(** [m'] is [m] except at and below [top]. *)
Definition same_outside (top : path) (m m' : gmap path obj) : Prop :=
  ∀ p, ¬ top `prefix_of` p → m' !! p = m !! p.

(** [w'] has everything [w] has: the same source tree and clock, and each
    object of the writable volume as it was. *)
Definition extends (w w' : world) : Prop :=
  src_tree w' = src_tree w ∧ today w' = today w ∧ files w ⊆ files w'.

(** The destination copy of the file [f] of the walked directory [root]
    exists and has the size of the source file. *)
Definition settled (src dst : path) (w : world) (e : path * string) : Prop :=
  let '(root, f) := e in
  exists_ (mirror_dir src dst root ++ [f]) w = true
  ∧ ∃ n, getsize (root ++ [f]) w = Ret n
         ∧ getsize (mirror_dir src dst root ++ [f]) w = Ret n.

End TreeFS.

(* ===================================================================== *)
(** * Example worlds *)
(* ===================================================================== *)

Module Examples.
Import TreeFS.

Definition clock : date := mk_date 2026 11 4.

(** The source tree of the scenarios of the specification: [a.txt] of four
    bytes and [sub/b.txt] of ten. *)
Definition two_files : node :=
  Dir [ ("a.txt", File (bytes "abcd"));
        ("sub", Dir [ ("b.txt", File (bytes "0123456789")) ]) ].

(** A source tree of one file of five bytes. *)
Definition one_file : node := Dir [ ("a.txt", File (bytes "hello")) ].

Definition src : path := [mount].
Definition dst : path := ["dst"].

(** [/dst] is an empty directory. *)
Definition empty_dst : world :=
  mk_world two_files {[ dst := ODir ]} [] clock.

(** [/dst/a.txt] is there and has two bytes where the source has five. *)
Definition shorter_copy : world :=
  mk_world one_file
    (<[ dst ++ ["a.txt"] := OFile (bytes "hi") ]> {[ dst := ODir ]}) [] clock.

(** The tree of two files, and a [/dst/a.txt] of two bytes. *)
Definition stale_copy : world :=
  mk_world two_files
    (<[ dst ++ ["a.txt"] := OFile (bytes "xy") ]> {[ dst := ODir ]}) [] clock.

(** [/dst/a.txt] is there, with other bytes than the source but as many. *)
Definition same_size_copy : world :=
  mk_world one_file
    (<[ dst ++ ["a.txt"] := OFile (bytes "HELLO") ]> {[ dst := ODir ]}) [] clock.

(** [/dst/sub] is a regular file where the source has a directory. *)
Definition file_in_the_way : world :=
  mk_world two_files
    (<[ dst ++ ["sub"] := OFile (bytes "x") ]> {[ dst := ODir ]}) [] clock.

(** [/dst] itself is a regular file. *)
Definition dst_is_a_file : world :=
  mk_world two_files {[ dst := OFile (bytes "x") ]} [] clock.

(** [/dst/a.txt] has the size of the source file, and [/dst/sub] is a
    regular file. *)
Definition skipped_then_blocked : world :=
  mk_world two_files
    (<[ dst ++ ["a.txt"] := OFile (bytes "wxyz") ]>
       (<[ dst ++ ["sub"] := OFile (bytes "x") ]> {[ dst := ODir ]})) [] clock.

(** A source tree with a file that cannot be read. *)
Definition with_locked_file : node :=
  Dir [ ("a.txt", File (bytes "abcd")); ("secret.txt", Locked (bytes "key")) ].

(** The tree with the unreadable file, and an empty [/dst]. *)
Definition locked_source : world :=
  mk_world with_locked_file {[ dst := ODir ]} [] clock.

(** The command line [file_sync.py /src /dst/a.txt/x]: a destination below
    a regular file, and no [--report-dir]. *)
Definition args_below_a_file : Args :=
  mk_args src (dst ++ ["a.txt"; "x"]) None "example".

(** The command line [file_sync.py /nowhere /dst]. *)
Definition args_no_source : Args := mk_args ["nowhere"] dst None "example".

End Examples.

(* ===================================================================== *)
(** * Notions the properties are stated with *)
(* ===================================================================== *)

(** The number of entries of a result, over its four lists. *)
Definition total_len (r : SyncResult) : nat :=
  (length (res_new r) + length (res_overwritten r)
   + length (res_skipped r) + length (res_errors r))%nat.

(** The file entries a traversal enumerates: one for each name of the
    [files] component of each triple of the walk. *)
Definition walked_files (triples : list (path * list string * list string))
  : list (path * string) :=
  flat_map (λ '(root, _, files), map (λ f, (root, f)) files) triples.

(** The entry the handler of line 111 records for the exception [e] raised
    on the file [fname] of the directory [root]. *)
Definition error_entry (src root : path) (fname : string) (e : exn) : string :=
  rel_str (os_path_relpath (os_path_join root [fname]) src)
    +:+ " -> " +:+ exn_str e.

(** The entry of [new], [overwritten] or [skipped] for the file [f] of the
    walked directory [root]: its path relative to the destination. *)
Definition dst_entry (src dst : path) (e : path * string) : string :=
  let '(root, f) := e in
  rel_str (os_path_relpath (os_path_join (mirror_dir src dst root) [f]) dst).

Definition add_all_new (l : list string) (r : SyncResult) : SyncResult :=
  mk_result (res_new r ++ l) (res_overwritten r) (res_skipped r) (res_errors r).
Definition add_all_skipped (l : list string) (r : SyncResult) : SyncResult :=
  mk_result (res_new r) (res_overwritten r) (res_skipped r ++ l) (res_errors r).

(** [r'] is [r] with one more entry, for the file [fname] of the walked
    directory [root], in exactly one of the four lists: its
    destination-relative path in [new], [overwritten] or [skipped], or the
    entry of an exception in [errors]. *)
Definition recorded_once (src dst root dst_dir : path) (fname : string)
    (r r' : SyncResult) : Prop :=
  let entry := rel_str (os_path_relpath (os_path_join dst_dir [fname]) dst) in
  r' = add_new entry r ∨ r' = add_overwritten entry r
  ∨ r' = add_skipped entry r
  ∨ ∃ e, r' = add_errors (error_entry src root fname e) r.

(** The lines of a text: the pieces between line feeds, a final line feed
    ending the last line rather than opening an empty one. *)
Fixpoint lines (s : string) : list string :=
  match s with
  | EmptyString => []
  | String c s' =>
      if Ascii.eqb c "010"%char then "" :: lines s'
      else match lines s' with
           | [] => [String c ""]
           | l :: ls => String c l :: ls
           end
  end.

(** No line feed in [s]. *)
Fixpoint no_newline (s : string) : bool :=
  match s with
  | EmptyString => true
  | String c s' => negb (Ascii.eqb c "010"%char) && no_newline s'
  end.

(** The concatenation of the pieces written to a file. *)
Definition join (l : list string) : string := fold_right String.append "" l.

(** The summary block of a report, as lines: the header, then the four
    counts, then the empty line. *)
Definition summary_lines (date_str : string) (n o s e : nat) : list string :=
  [ "Report date (America/Chicago): " +:+ date_str;
    "Summary:";
    "  New files:         " +:+ str_int n;
    "  Overwritten files: " +:+ str_int o;
    "  Skipped files:     " +:+ str_int s;
    "  Errors:            " +:+ str_int e;
    "" ].

(** The errors section of a report, as text: nothing for no error. *)
Definition errors_section (errors : list string) : string :=
  match errors with
  | [] => ""
  | _ :: _ =>
      "Errors:" +:+ nl +:+ join (map (λ e, "  " +:+ e +:+ nl) errors) +:+ nl
  end.

(** [s] occurs in [t]. *)
Definition substring_of (s t : string) : Prop :=
  ∃ pre post, t = pre +:+ s +:+ post.

(** A dictionary in which each of the four keys is bound, to the list the
    given dictionary binds it to or to the empty list. *)
Definition with_defaults (results : gmap string (list string))
  : gmap string (list string) :=
  result_dict (mk_result (dict_get results "new")
                         (dict_get results "overwritten")
                         (dict_get results "skipped")
                         (dict_get results "errors")).

(* ===================================================================== *)
(** * Properties that hold on every operating system *)
(* ===================================================================== *)

(** Unfolds the monad so that a computation becomes a term that computes. *)
Ltac unfold_monad :=
  unfold bind, ret, raise, gets, modify, observe, try_except,
    try_except_OSError, zoom in *.

Ltac unfold_sync :=
  unfold sync_file, sync_file_body, getsize_or_None, name_false, sys,
    append_new, append_overwritten, append_skipped, append_errors,
    on_results, set_world in *.

Section generic.
Context {world : Type} `{!OS world}.

Lemma for_each_app {S A} (l1 l2 : list A) (body : A → M S unit) (s : S) :
  for_each (l1 ++ l2) body s
  = match for_each l1 body s with
    | (Ret _, s') => for_each l2 body s'
    | (Raise e, s') => (Raise e, s')
    end.
Proof.
  revert s. induction l1 as [|x l1 IH]; intros s; simpl.
  - reflexivity.
  - unfold bind. destruct (body x s) as [[[]|e] s']; [apply IH | reflexivity].
Qed.

Lemma for_each_cons {S A} (x : A) (l : list A) (body : A → M S unit) (s : S) :
  for_each (x :: l) body s
  = match body x s with
    | (Ret _, s') => for_each l body s'
    | (Raise e, s') => (Raise e, s')
    end.
Proof. reflexivity. Qed.

(** *** One file *)

(** What one turn of the inner loop does to the store, case by case. *)
Inductive file_outcome (src dst root dst_dir : path) (fname : string)
    (st st' : sync_state) : Prop :=
| fo_new :
    os_path_exists (dst_dir ++ [fname]) (ss_world st) = false →
    shutil_copy2 (root ++ [fname]) (dst_dir ++ [fname]) false (ss_world st)
      = (Ret tt, ss_world st') →
    ss_results st'
      = add_new (rel_str (os_path_relpath (dst_dir ++ [fname]) dst))
                (ss_results st) →
    file_outcome src dst root dst_dir fname st st'
| fo_skipped n :
    os_path_exists (dst_dir ++ [fname]) (ss_world st) = true →
    os_path_getsize (root ++ [fname]) (ss_world st) = Ret n →
    os_path_getsize (dst_dir ++ [fname]) (ss_world st) = Ret n →
    ss_world st' = ss_world st →
    ss_results st'
      = add_skipped (rel_str (os_path_relpath (dst_dir ++ [fname]) dst))
                    (ss_results st) →
    file_outcome src dst root dst_dir fname st st'
| fo_error e :
    ss_results st' = add_errors (error_entry src root fname e) (ss_results st) →
    file_outcome src dst root dst_dir fname st st'.

Lemma sync_file_outcome src dst root dst_dir fname st :
  ∃ st', sync_file src dst root dst_dir fname st = (Ret tt, st')
         ∧ file_outcome src dst root dst_dir fname st st'.
Proof.
  destruct st as [r w]. unfold_sync. unfold os_path_join.
  unfold_monad. simpl.
  pose (ne := mk_exn NameError "name 'false' is not defined").
  destruct (os_path_exists (dst_dir ++ [fname]) w) eqn:Hex; simpl.
  - destruct (os_path_getsize (root ++ [fname]) w) as [s|es] eqn:Hs; simpl.
    + destruct (os_path_getsize (dst_dir ++ [fname]) w) as [d|ed] eqn:Hd; simpl.
      * destruct (Z.eqb_spec s d) as [->|Hne]; simpl.
        -- eexists; split; [reflexivity|]. by eapply fo_skipped.
        -- eexists; split; [reflexivity|]. by apply fo_error with ne.
      * destruct (is_OSError ed); simpl;
          (eexists; split; [reflexivity|]).
        -- by apply fo_error with ne.
        -- by apply fo_error with ed.
    + destruct (is_OSError es); simpl.
      * destruct (os_path_getsize (dst_dir ++ [fname]) w) as [d|ed]; simpl;
          [|destruct (is_OSError ed); simpl];
          (eexists; split; [reflexivity|]).
        -- by apply fo_error with ne.
        -- by apply fo_error with ne.
        -- by apply fo_error with ed.
      * eexists; split; [reflexivity|]. by apply fo_error with es.
  - destruct (shutil_copy2 (root ++ [fname]) (dst_dir ++ [fname]) false w)
      as [[[]|e] w'] eqn:Hcp; simpl.
    + eexists; split; [reflexivity|]. by eapply fo_new.
    + eexists; split; [reflexivity|]. by apply fo_error with e.
Qed.

Lemma sync_file_returns src dst root dst_dir fname st :
  fst (sync_file src dst root dst_dir fname st) = Ret tt.
Proof.
  destruct (sync_file_outcome src dst root dst_dir fname st) as (st' & -> & _).
  reflexivity.
Qed.

Lemma file_outcome_total_len src dst root dst_dir fname st st' :
  file_outcome src dst root dst_dir fname st st' →
  total_len (ss_results st') = S (total_len (ss_results st)).
Proof.
  intros [? ? Hr|? ? ? ? ? Hr|? Hr]; rewrite Hr; unfold total_len; simpl;
    rewrite length_app; simpl; lia.
Qed.

(** The inner loop returns, with one more entry for each file name. *)
Lemma sync_files_total_len src dst root dst_dir files st :
  ∃ st', for_each files (sync_file src dst root dst_dir) st = (Ret tt, st')
         ∧ total_len (ss_results st')
           = (total_len (ss_results st) + length files)%nat.
Proof.
  revert st. induction files as [|f files IH]; intros st; simpl.
  - exists st. split; [reflexivity | lia].
  - unfold bind.
    destruct (sync_file_outcome src dst root dst_dir f st) as (st1 & -> & Ho).
    destruct (IH st1) as (st' & -> & Hlen).
    exists st'. split; [reflexivity|].
    rewrite Hlen, (file_outcome_total_len _ _ _ _ _ _ _ Ho). lia.
Qed.

(** *** One directory, and the whole traversal *)

Lemma sync_dir_cases src dst root dirs files st :
  (∃ e w1, os_makedirs (mirror_dir src dst root) (ss_world st) = (Raise e, w1)
           ∧ sync_dir src dst (root, dirs, files) st = (Raise e, set_world w1 st))
  ∨ (∃ w1 st', os_makedirs (mirror_dir src dst root) (ss_world st) = (Ret tt, w1)
               ∧ sync_dir src dst (root, dirs, files) st = (Ret tt, st')
               ∧ total_len (ss_results st')
                 = (total_len (ss_results st) + length files)%nat).
Proof.
  unfold sync_dir, sys, zoom, bind.
  destruct (os_makedirs (mirror_dir src dst root) (ss_world st))
    as [[[]|e] w1] eqn:Hmk.
  - right.
    destruct (sync_files_total_len src dst root (mirror_dir src dst root)
                files (set_world w1 st)) as (st' & Hrun & Hlen).
    exists w1, st'. by rewrite Hrun.
  - left. by exists e, w1.
Qed.

Lemma sync_dirs_cases src dst triples st :
  (∃ st', for_each triples (sync_dir src dst) st = (Ret tt, st')
          ∧ total_len (ss_results st')
            = (total_len (ss_results st) + length (walked_files triples))%nat)
  ∨ (∃ e st' root dirs files w1,
        for_each triples (sync_dir src dst) st = (Raise e, st')
        ∧ In (root, dirs, files) triples
        ∧ fst (os_makedirs (mirror_dir src dst root) w1) = Raise e).
Proof.
  revert st. induction triples as [|[[root dirs] files] triples IH]; intros st.
  - left. exists st. simpl. split; [reflexivity | lia].
  - rewrite for_each_cons.
    destruct (sync_dir_cases src dst root dirs files st)
      as [(e & w1 & Hmk & ->)|(w1 & st1 & Hmk & -> & Hlen)].
    + right. exists e, (set_world w1 st), root, dirs, files, (ss_world st).
      split; [reflexivity|]. split; [by left|]. by rewrite Hmk.
    + destruct (IH st1) as [(st' & -> & Hlen')
                           |(e & st' & root' & dirs' & files' & w' & -> & Hin & Hmk')].
      * left. exists st'. split; [reflexivity|].
        rewrite Hlen', Hlen. simpl. rewrite length_app, length_map. lia.
      * right. exists e, st', root', dirs', files', w'.
        split; [reflexivity|]. split; [by right | done].
Qed.

Lemma sync_copy_checked src dst w :
  os_path_exists src w = true →
  os_path_isdir src w = true →
  sync_copy src dst w
  = match for_each (os_walk src w) (sync_dir src dst)
                   (mk_sync_state empty_result w) with
    | (Ret _, st) => (Ret (ss_results st), ss_world st)
    | (Raise e, st) => (Raise e, ss_world st)
    end.
Proof. intros Hex Hdir. unfold sync_copy, os_path_abspath. by rewrite Hex, Hdir. Qed.

Lemma sync_copy_raise_inv src dst w e :
  os_path_exists src w = true →
  os_path_isdir src w = true →
  fst (sync_copy src dst w) = Raise e →
  ∃ root dirs files w1,
    In (root, dirs, files) (os_walk src w)
    ∧ fst (os_makedirs (mirror_dir src dst root) w1) = Raise e.
Proof.
  intros Hex Hdir. rewrite sync_copy_checked by done.
  destruct (sync_dirs_cases src dst (os_walk src w) (mk_sync_state empty_result w))
    as [(st' & -> & _)|(e' & st' & root & dirs & files & w1 & -> & Hin & Hmk)];
    simpl; [done|].
  intros [= <-]. by exists root, dirs, files, w1.
Qed.

(** *** A destination that is not there *)

Lemma sync_file_new src dst root dst_dir fname r w w' :
  os_path_exists (dst_dir ++ [fname]) w = false →
  shutil_copy2 (root ++ [fname]) (dst_dir ++ [fname]) false w = (Ret tt, w') →
  sync_file src dst root dst_dir fname (mk_sync_state r w)
  = (Ret tt,
     mk_sync_state
       (add_new (rel_str (os_path_relpath (dst_dir ++ [fname]) dst)) r) w').
Proof.
  intros Hex Hcp. unfold_sync. unfold os_path_join. unfold_monad. simpl.
  rewrite Hex. simpl. by rewrite Hcp.
Qed.

Lemma add_all_new_nil r : add_all_new [] r = r.
Proof. destruct r. unfold add_all_new. simpl. by rewrite app_nil_r. Qed.

Lemma add_all_new_cons x l r :
  add_all_new l (add_new x r) = add_all_new (x :: l) r.
Proof. unfold add_all_new, add_new. simpl. by rewrite <-app_assoc. Qed.

Lemma add_all_new_app l1 l2 r :
  add_all_new l2 (add_all_new l1 r) = add_all_new (l1 ++ l2) r.
Proof. unfold add_all_new. simpl. by rewrite <-app_assoc. Qed.

(** *** A destination of the same size *)

Lemma sync_file_skip src dst root dst_dir fname r w n :
  os_path_exists (dst_dir ++ [fname]) w = true →
  os_path_getsize (root ++ [fname]) w = Ret n →
  os_path_getsize (dst_dir ++ [fname]) w = Ret n →
  sync_file src dst root dst_dir fname (mk_sync_state r w)
  = (Ret tt,
     mk_sync_state
       (add_skipped (rel_str (os_path_relpath (dst_dir ++ [fname]) dst)) r) w).
Proof.
  intros Hex Hs Hd. unfold_sync. unfold os_path_join. unfold_monad. simpl.
  rewrite Hex. simpl. rewrite Hs. simpl. rewrite Hd. simpl.
  by rewrite Z.eqb_refl.
Qed.

Lemma add_all_skipped_nil r : add_all_skipped [] r = r.
Proof. destruct r. unfold add_all_skipped. simpl. by rewrite app_nil_r. Qed.

Lemma add_all_skipped_cons x l r :
  add_all_skipped l (add_skipped x r) = add_all_skipped (x :: l) r.
Proof. unfold add_all_skipped, add_skipped. simpl. by rewrite <-app_assoc. Qed.

Lemma add_all_skipped_app l1 l2 r :
  add_all_skipped l2 (add_all_skipped l1 r) = add_all_skipped (l1 ++ l2) r.
Proof. unfold add_all_skipped. simpl. by rewrite <-app_assoc. Qed.

(** A directory all of whose files have a destination of the same size. *)
Lemma sync_files_skip src dst root files r w :
  (∀ f, In f files →
        os_path_exists (mirror_dir src dst root ++ [f]) w = true
        ∧ ∃ n, os_path_getsize (root ++ [f]) w = Ret n
               ∧ os_path_getsize (mirror_dir src dst root ++ [f]) w = Ret n) →
  for_each files (sync_file src dst root (mirror_dir src dst root))
           (mk_sync_state r w)
  = (Ret tt,
     mk_sync_state
       (add_all_skipped (map (λ f, dst_entry src dst (root, f)) files) r) w).
Proof.
  revert r. induction files as [|f files IH]; intros r Hall.
  - simpl. by rewrite add_all_skipped_nil.
  - rewrite for_each_cons.
    destruct (Hall f (or_introl eq_refl)) as (Hex & n & Hs & Hd).
    rewrite (sync_file_skip _ _ _ _ _ _ _ n) by done.
    rewrite IH by (intros f' Hf'; apply Hall; by right).
    by rewrite add_all_skipped_cons.
Qed.

(** A traversal in which every directory is there already and every file
    has a destination of the same size: everything is skipped and the
    world stays as it is. *)
Lemma sync_dirs_skip src dst triples r w :
  (∀ root dirs files, In (root, dirs, files) triples →
     os_makedirs (mirror_dir src dst root) w = (Ret tt, w)
     ∧ ∀ f, In f files →
         os_path_exists (mirror_dir src dst root ++ [f]) w = true
         ∧ ∃ n, os_path_getsize (root ++ [f]) w = Ret n
                ∧ os_path_getsize (mirror_dir src dst root ++ [f]) w = Ret n) →
  for_each triples (sync_dir src dst) (mk_sync_state r w)
  = (Ret tt,
     mk_sync_state
       (add_all_skipped (map (dst_entry src dst) (walked_files triples)) r) w).
Proof.
  revert r. induction triples as [|[[root dirs] files] triples IH]; intros r Hall.
  - simpl. by rewrite add_all_skipped_nil.
  - rewrite for_each_cons.
    destruct (Hall root dirs files (or_introl eq_refl)) as [Hmk Hfiles].
    unfold sync_dir at 1. unfold sys, zoom, bind. simpl. rewrite Hmk.
    unfold set_world. simpl.
    rewrite sync_files_skip by done.
    rewrite IH
      by (intros root' dirs' files' Hin; apply (Hall root' dirs' files'); by right).
    rewrite add_all_skipped_app. simpl. by rewrite map_app, map_map.
Qed.

(** *** A destination of another size, or of unknown size *)

(** Where the destination exists and the two sizes differ, or one of the
    two size lookups raises an [OSError], the turn of the loop ends in the
    handler of line 111 with the [NameError] of [false]: nothing is copied
    and the entry goes to [errors]. *)
Lemma size_mismatch_is_error src dst root dst_dir fname r w :
  os_path_exists (dst_dir ++ [fname]) w = true →
  (match os_path_getsize (root ++ [fname]) w,
         os_path_getsize (dst_dir ++ [fname]) w with
   | Ret s, Ret d => s ≠ d
   | Ret _, Raise e | Raise e, Ret _ => is_OSError e = true
   | Raise e, Raise e' => is_OSError e = true ∧ is_OSError e' = true
   end) →
  sync_file src dst root dst_dir fname (mk_sync_state r w)
  = (Ret tt,
     mk_sync_state
       (add_errors
          (error_entry src root fname
             (mk_exn NameError "name 'false' is not defined")) r) w).
Proof.
  intros Hex Hsz. unfold_sync. unfold error_entry, os_path_join.
  unfold_monad. simpl. rewrite Hex. simpl.
  destruct (os_path_getsize (root ++ [fname]) w) as [s|es]; simpl.
  - destruct (os_path_getsize (dst_dir ++ [fname]) w) as [d|ed]; simpl.
    + destruct (Z.eqb_spec s d); [done | reflexivity].
    + by rewrite Hsz.
  - assert (is_OSError es = true) as ->
      by (destruct (os_path_getsize (dst_dir ++ [fname]) w); tauto).
    simpl.
    destruct (os_path_getsize (dst_dir ++ [fname]) w) as [d|ed]; simpl.
    + reflexivity.
    + destruct Hsz as [_ ->]. reflexivity.
Qed.

End generic.

(* ===================================================================== *)
(** * Paths *)
(* ===================================================================== *)

Lemma strip_common_app (s r : path) : strip_common (s ++ r) s = (r, []).
Proof.
  induction s as [|x s IH]; simpl.
  - by destruct r.
  - by rewrite String.eqb_refl.
Qed.

Lemma os_path_relpath_app (s r : path) :
  r ≠ [] → os_path_relpath (s ++ r) s = r.
Proof.
  intros Hr. unfold os_path_relpath. rewrite strip_common_app. simpl.
  by destruct r.
Qed.

Lemma os_path_relpath_self (s : path) : os_path_relpath s s = ["."].
Proof.
  unfold os_path_relpath.
  rewrite <-(app_nil_r s) at 1. by rewrite strip_common_app.
Qed.

(** The mirror of the directory [src/rel] is [dst/rel], for a [rel] that is
    not the single component [.]. *)
Lemma mirror_dir_app (src dst rel : path) :
  rel ≠ ["."] → mirror_dir src dst (src ++ rel) = dst ++ rel.
Proof.
  intros Hrel. unfold mirror_dir, os_path_join.
  destruct rel as [|n rel].
  - rewrite app_nil_r, os_path_relpath_self.
    by rewrite decide_True.
  - rewrite os_path_relpath_app by done. by rewrite decide_False.
Qed.

(* ===================================================================== *)
(** * The concrete file system: what its calls do *)
(* ===================================================================== *)

Module TreeFSFacts.
Import TreeFS.

(** Induction on a tree, with the property at hand for every entry of a
    directory. *)
Lemma node_ind' (P : node → Prop) :
  (∀ d, P (File d)) →
  (∀ d, P (Locked d)) →
  (∀ es, Forall (λ e, P e.2) es → P (Dir es)) →
  ∀ t, P t.
Proof.
  intros Hf Hl Hd. fix IH 1. intros [d|d|es]; [apply Hf|apply Hl|].
  apply Hd. induction es as [|[n c] es IHes]; constructor; [apply IH | apply IHes].
Qed.

Lemma stat_mount rel w :
  stat (mount :: rel) w = obj_of_node <$> tree_lookup (src_tree w) rel.
Proof. reflexivity. Qed.

Lemma in_mount_writable p q : writable p = true → in_mount (p ++ q) = None.
Proof.
  destruct p as [|s p]; [done|]. simpl.
  by destruct (String.eqb s mount).
Qed.

Lemma writable_app p q : writable p = true → writable (p ++ q) = true.
Proof. by destruct p. Qed.

Lemma stat_writable p w : writable p = true → stat p w = files w !! p.
Proof.
  intros Hp. pose proof (in_mount_writable p [] Hp) as Hm.
  rewrite app_nil_r in Hm. unfold stat. rewrite Hm. by destruct p.
Qed.

Lemma stat_extends w w' p o :
  extends w w' → stat p w = Some o → stat p w' = Some o.
Proof.
  intros (Hsrc & _ & Hsub). unfold stat. rewrite Hsrc.
  destruct p as [|s p]; [done|].
  destruct (in_mount (s :: p)); [done|].
  intros Hlk. by eapply lookup_weaken.
Qed.

Lemma extends_refl w : extends w w.
Proof. done. Qed.

Lemma extends_trans w1 w2 w3 : extends w1 w2 → extends w2 w3 → extends w1 w3.
Proof.
  intros (? & ? & ?) (? & ? & ?). repeat split; [congruence..|].
  by etrans.
Qed.

Lemma all_dirs_extends p w w' : extends w w' → all_dirs p w → all_dirs p w'.
Proof. intros Hext Hp k Hk. eapply stat_extends; [done|]. by apply Hp. Qed.

(** *** makedirs *)

Lemma makedirs_from_noop rest pre w :
  (∀ k, (0 < k ≤ length rest)%nat → stat (pre ++ take k rest) w = Some ODir) →
  makedirs_from pre rest w = (Ret tt, w).
Proof.
  revert pre. induction rest as [|n rest IH]; intros pre Hdirs; [done|].
  simpl.
  assert (stat (pre ++ [n]) w = Some ODir) as ->
    by (apply (Hdirs 1%nat); simpl; lia).
  apply IH. intros k Hk. rewrite <-app_assoc. apply (Hdirs (S k)). simpl. lia.
Qed.

Lemma makedirs_noop p w : all_dirs p w → makedirs p w = (Ret tt, w).
Proof. intros Hp. by apply (makedirs_from_noop p []). Qed.

(** One new directory below directories that exist. *)
Lemma makedirs_from_leaf rest pre n w :
  (∀ k, (0 < k ≤ length rest)%nat → stat (pre ++ take k rest) w = Some ODir) →
  stat (pre ++ rest ++ [n]) w = None →
  in_mount (pre ++ rest ++ [n]) = None →
  makedirs_from pre (rest ++ [n]) w
  = (Ret tt, set_files (<[pre ++ rest ++ [n] := ODir]> (files w)) w).
Proof.
  revert pre. induction rest as [|m rest IH]; intros pre Hdirs Hnone Hmnt.
  - simpl in *. rewrite Hnone. unfold bind, mkdir. by rewrite Hmnt.
  - simpl.
    assert (stat (pre ++ [m]) w = Some ODir) as ->
      by (apply (Hdirs 1%nat); simpl; lia).
    rewrite IH.
    + by rewrite <-app_assoc.
    + intros k Hk. rewrite <-app_assoc. apply (Hdirs (S k)). simpl. lia.
    + by rewrite <-app_assoc.
    + by rewrite <-app_assoc.
Qed.

Lemma makedirs_leaf p n w :
  all_dirs p w →
  stat (p ++ [n]) w = None →
  in_mount (p ++ [n]) = None →
  makedirs (p ++ [n]) w = (Ret tt, set_files (<[p ++ [n] := ODir]> (files w)) w).
Proof. intros Hp ? ?. by apply (makedirs_from_leaf p []). Qed.

(** Whatever it does, [makedirs] keeps what is there; when it returns, the
    path and everything above it are directories. *)
Lemma makedirs_from_extends rest pre w o w' :
  makedirs_from pre rest w = (o, w') →
  extends w w' ∧ copy_log w' = copy_log w
  ∧ (o = Ret tt →
     ∀ k, (0 < k ≤ length rest)%nat → stat (pre ++ take k rest) w' = Some ODir).
Proof.
  revert pre w. induction rest as [|n rest IH]; intros pre w.
  - intros [= <- <-]. split; [apply extends_refl|]. split; [done|].
    simpl. intros _ k ?. lia.
  - simpl. destruct (stat (pre ++ [n]) w) as [[d|]|] eqn:Hst.
    + destruct rest; intros [= <- <-];
        (split; [apply extends_refl|]; split; [done|]; done).
    + intros Hrun. destruct (IH _ _ Hrun) as (Hext & Hlog & Hdirs).
      split; [done|]. split; [done|]. intros Ho [|k] Hk; [lia|]. simpl.
      destruct k as [|k].
      * rewrite take_0. by eapply stat_extends.
      * rewrite <-(Hdirs Ho (S k)) by lia. by rewrite <-app_assoc.
    + unfold bind, mkdir.
      destruct (in_mount (pre ++ [n])) eqn:Hmnt.
      * intros [= <- <-]. split; [apply extends_refl|]. done.
      * intros Hrun. destruct (IH _ _ Hrun) as (Hext & Hlog & Hdirs).
        assert (extends w (set_files (<[pre ++ [n] := ODir]> (files w)) w))
          as Hext1.
        { repeat split; simpl. apply insert_subseteq.
          unfold stat in Hst. rewrite Hmnt in Hst. by destruct (pre ++ [n]). }
        split; [by eapply extends_trans|]. split; [done|].
        intros Ho [|k] Hk; [lia|]. simpl. destruct k as [|k].
        -- rewrite take_0. eapply stat_extends; [done|].
           unfold stat. simpl. rewrite Hmnt. rewrite lookup_insert_eq.
           by destruct (pre ++ [n]).
        -- rewrite <-(Hdirs Ho (S k)) by lia. by rewrite <-app_assoc.
Qed.

Lemma makedirs_extends p w o w' :
  makedirs p w = (o, w') →
  extends w w' ∧ copy_log w' = copy_log w ∧ (o = Ret tt → all_dirs p w').
Proof. apply (makedirs_from_extends p []). Qed.

(** *** copy2 *)

Lemma isdir_false_of_stat p w : stat p w = None → isdir p w = false.
Proof. unfold isdir. by intros ->. Qed.

(** A copy onto a path where nothing is, in a directory that exists. *)
Lemma copy2_new s d b data w :
  stat s w = Some (OFile data) →
  readable s w = true →
  stat d w = None →
  stat (dirname d) w = Some ODir →
  in_mount d = None →
  copy2 s d b w
  = (Ret tt, mk_world (src_tree w) (<[d := OFile data]> (files w))
                      (copy_log w ++ [(s, d, b)]) (today w)).
Proof.
  intros Hs Hr Hd Hparent Hmnt.
  unfold copy2, log_copy, write_file. unfold_monad.
  assert (∀ p l, stat p (mk_world (src_tree w) (files w) l (today w)) = stat p w)
    as Hstat by done.
  assert (∀ p l, readable p (mk_world (src_tree w) (files w) l (today w))
                 = readable p w) as Hread by done.
  unfold isdir. rewrite !Hstat, Hd, Hs, Hread, Hr.
  rewrite decide_False by (intros ->; congruence).
  by rewrite !Hstat, Hd, Hparent, Hmnt.
Qed.

(** A copy that returns, onto a path where nothing was: the file is there
    afterwards, with the bytes of the source, and nothing else changed. *)
Lemma copy2_returns s d b w w' :
  exists_ d w = false →
  copy2 s d b w = (Ret tt, w') →
  extends w w'
  ∧ ∃ data, stat s w = Some (OFile data) ∧ stat d w' = Some (OFile data).
Proof.
  unfold exists_. destruct (stat d w) as [o|] eqn:Hd; [done|]. intros _.
  unfold copy2, log_copy, write_file. unfold_monad.
  assert (∀ p l, stat p (mk_world (src_tree w) (files w) l (today w)) = stat p w)
    as Hstat by done.
  unfold isdir. rewrite !Hstat, Hd.
  destruct (stat s w) as [[data|]|] eqn:Hs; [|done..].
  destruct (decide (s = d)); [done|].
  destruct (readable s _); [|done].
  rewrite !Hstat, Hd.
  destruct (stat (dirname d) w) as [[?|]|]; [done| |done].
  destruct (in_mount d) eqn:Hmnt; [done|]. simpl.
  intros [= <-]. split.
  - repeat split; simpl. apply insert_subseteq.
    unfold stat in Hd. rewrite Hmnt in Hd. by destruct d.
  - exists data. split; [done|]. unfold stat. simpl. rewrite Hmnt.
    rewrite lookup_insert_eq. destruct d; [|done].
    by unfold stat in Hd.
Qed.

Lemma exists_extends w w' p :
  extends w w' → exists_ p w = true → exists_ p w' = true.
Proof.
  intros Hext. unfold exists_. destruct (stat p w) as [o|] eqn:Hst; [|done].
  by rewrite (stat_extends _ _ _ _ Hext Hst).
Qed.

Lemma getsize_extends w w' p n :
  extends w w' → getsize p w = Ret n → getsize p w' = Ret n.
Proof.
  intros Hext. unfold getsize. destruct (stat p w) as [o|] eqn:Hst; [|done].
  by rewrite (stat_extends _ _ _ _ Hext Hst).
Qed.

Lemma settled_extends src dst w w' e :
  extends w w' → settled src dst w e → settled src dst w' e.
Proof.
  intros Hext. destruct e as [root f]. intros (Hex & n & Hs & Hd).
  split; [by eapply exists_extends|].
  exists n. split; by eapply getsize_extends.
Qed.

(** *** Trees *)

Lemma tree_lookup_app t p q :
  tree_lookup t (p ++ q) = tree_lookup t p ≫= λ c, tree_lookup c q.
Proof.
  revert t. induction p as [|n p IH]; intros t; simpl; [done|].
  destruct t as [d|d|es]; [done..|].
  destruct (lookup_entry n es); [apply IH | done].
Qed.

Lemma lookup_entry_In n c es :
  NoDup (map fst es) → In (n, c) es → lookup_entry n es = Some c.
Proof.
  induction es as [|[m c'] es IH]; simpl; [done|].
  rewrite NoDup_cons. intros [Hm Hnd] [[= -> ->]|Hin].
  - by rewrite String.eqb_refl.
  - destruct (String.eqb_spec n m) as [->|Hne]; [|by apply IH].
    destruct Hm. apply (in_map fst) in Hin. by apply list_elem_of_In.
Qed.

Lemma lookup_entry_Some n c es : lookup_entry n es = Some c → In (n, c) es.
Proof.
  induction es as [|[m c'] es IH]; simpl; [done|].
  destruct (String.eqb_spec n m) as [->|Hne].
  - intros [= ->]. by left.
  - intros Hl. right. by apply IH.
Qed.

Lemma In_file_names f es :
  In f (file_names es) ↔ ∃ c d, In (f, c) es ∧ obj_of_node c = OFile d.
Proof.
  unfold file_names. rewrite <-list_elem_of_In, list_elem_of_omap. split.
  - intros ([n [d|d|es']] & Hin & Heq); simplify_eq.
    + exists (File d), d. split; [by apply list_elem_of_In|done].
    + exists (Locked d), d. split; [by apply list_elem_of_In|done].
  - intros (c & d & Hin & Hc). exists (f, c).
    split; [by apply list_elem_of_In|]. by destruct c.
Qed.

Lemma file_names_cons n c es :
  file_names ((n, c) :: es)
  = match c with Dir _ => file_names es | _ => n :: file_names es end.
Proof. by destruct c. Qed.

Lemma NoDup_file_names es : NoDup (map fst es) → NoDup (file_names es).
Proof.
  induction es as [|[n c] es IH]; [intros; constructor|].
  rewrite file_names_cons. simpl map. rewrite NoDup_cons. intros [Hn Hnd].
  assert (n ∉ file_names es) as Hnotin.
  { rewrite list_elem_of_In, In_file_names. intros (c' & d' & Hin & _).
    apply Hn, list_elem_of_In. by apply (in_map fst _ (n, c')). }
  destruct c as [d|d|es']; [| |by apply IH];
    (apply NoDup_cons; split; [done|by apply IH]).
Qed.

Lemma wf_tree_Dir es :
  wf_tree (Dir es) = true →
  Forall (λ n, valid_name n = true) (map fst es)
  ∧ NoDup (map fst es)
  ∧ ∀ n c, In (n, c) es → wf_tree c = true.
Proof.
  simpl. rewrite !andb_true_iff, bool_decide_eq_true, !forallb_forall.
  intros [[Hv Hnd] Hwf]. split; [|split; [done|]].
  - apply Forall_forall. intros n Hn. by apply Hv, list_elem_of_In.
  - intros n c Hin. by apply (Hwf (n, c)).
Qed.

Lemma readable_tree_Dir es :
  readable_tree (Dir es) = true → ∀ n c, In (n, c) es → readable_tree c = true.
Proof.
  simpl. rewrite forallb_forall. intros Hr n c Hin. by apply (Hr (n, c)).
Qed.

Lemma readable_File rel d w :
  tree_lookup (src_tree w) rel = Some (File d) → readable (mount :: rel) w = true.
Proof. unfold readable. simpl. by intros ->. Qed.

Lemma valid_path_not_dot rel :
  Forall (λ n, valid_name n = true) rel → rel ≠ ["."].
Proof. intros Hv ->. by apply Forall_inv in Hv. Qed.

Lemma walked_files_app l1 l2 :
  walked_files (l1 ++ l2) = walked_files l1 ++ walked_files l2.
Proof. unfold walked_files. apply flat_map_app. Qed.

(** The roots of a walk of a well-formed tree are paths of valid names. *)
Lemma walk_tree_roots t :
  ∀ rel, wf_tree t = true →
    Forall (λ n, valid_name n = true) rel →
    ∀ root dirs files, In (root, dirs, files) (walk_tree (mount :: rel) t) →
      ∃ rel', root = mount :: rel' ∧ Forall (λ n, valid_name n = true) rel'.
Proof.
  induction t as [d|d|es IH] using node_ind';
    intros rel Hwf Hrel root dirs files; [done..|].
  destruct (wf_tree_Dir _ Hwf) as (Hnames & _ & Hsub).
  simpl. intros [[= <- <- <-]|Hin]; [by exists rel|].
  apply in_flat_map in Hin as ([n c] & Hnc & Hin).
  rewrite Forall_forall in IH.
  apply (IH (n, c) ltac:(by apply list_elem_of_In) (rel ++ [n])) in Hin; [done|by eapply Hsub|].
  apply Forall_app. split; [done|]. constructor; [|done].
  rewrite Forall_forall in Hnames. apply Hnames, list_elem_of_In.
  by apply (in_map fst _ (n, c)).
Qed.

Lemma mirror_dir_mount dst rel :
  Forall (λ n, valid_name n = true) rel →
  mirror_dir [mount] dst (mount :: rel) = dst ++ rel.
Proof. intros Hrel. by apply (mirror_dir_app [mount] dst rel), valid_path_not_dot. Qed.

(** What the traversal records for the files of a well-formed tree: their
    paths relative to the root of the tree. *)
Lemma dst_entry_mount dst rel f :
  Forall (λ n, valid_name n = true) rel →
  dst_entry [mount] dst (mount :: rel, f) = rel_str (rel ++ [f]).
Proof.
  intros Hrel. unfold dst_entry, os_path_join.
  rewrite mirror_dir_mount by done.
  rewrite <-app_assoc. by rewrite os_path_relpath_app by by destruct rel.
Qed.

Lemma dst_entries_tree dst t :
  ∀ rel, wf_tree t = true →
    Forall (λ n, valid_name n = true) rel →
    map (dst_entry [mount] dst) (walked_files (walk_tree (mount :: rel) t))
    = map rel_str (tree_files rel t).
Proof.
  induction t as [d|d|es IH] using node_ind'; intros rel Hwf Hrel; [done..|].
  destruct (wf_tree_Dir _ Hwf) as (Hnames & _ & Hsub).
  simpl. rewrite !map_app, !map_map. f_equal.
  - apply map_ext. intros f. by apply dst_entry_mount.
  - clear Hwf. induction es as [|[n c] es IHes]; [done|].
    simpl. rewrite walked_files_app, !map_app.
    apply Forall_cons in IH as [IHc IH]. apply Forall_cons in Hnames as [Hn Hnames].
    f_equal.
    + apply IHc; [apply (Hsub n c); by left|].
      apply Forall_app. split; [done|]. by constructor.
    + apply IHes; [done..|]. intros n' c' Hin. apply (Hsub n' c'). by right.
Qed.

(** *** A run without errors leaves every file settled *)

Lemma sync_file_settles src dst root fname st st' :
  sync_file src dst root (mirror_dir src dst root) fname st = (Ret tt, st') →
  res_errors (ss_results st') = [] →
  res_errors (ss_results st) = []
  ∧ extends (ss_world st) (ss_world st')
  ∧ settled src dst (ss_world st') (root, fname).
Proof.
  intros Hrun Herr.
  destruct (sync_file_outcome src dst root (mirror_dir src dst root) fname st)
    as (st1 & Hrun1 & Ho).
  rewrite Hrun in Hrun1. injection Hrun1 as <-.
  destruct Ho as [Hex Hcp Hr|n Hex Hs Hd Hw Hr|e Hr]; rewrite Hr in Herr.
  - destruct (copy2_returns _ _ _ _ _ Hex Hcp) as (Hext & data & Hsrc & Hdst).
    split; [done|]. split; [done|]. simpl. unfold exists_, getsize.
    rewrite Hdst, (stat_extends _ _ _ _ Hext Hsrc). eauto.
  - rewrite Hw. split; [done|]. split; [apply extends_refl|]. simpl. eauto.
  - simpl in Herr. by destruct (res_errors (ss_results st)).
Qed.

Lemma sync_files_settle src dst root files st st' :
  for_each files (sync_file src dst root (mirror_dir src dst root)) st
    = (Ret tt, st') →
  res_errors (ss_results st') = [] →
  res_errors (ss_results st) = []
  ∧ extends (ss_world st) (ss_world st')
  ∧ ∀ f, In f files → settled src dst (ss_world st') (root, f).
Proof.
  revert st. induction files as [|f files IH]; intros st.
  - intros [= <-] Herr. split; [done|]. split; [apply extends_refl|]. by intros.
  - rewrite for_each_cons.
    destruct (sync_file_outcome src dst root (mirror_dir src dst root) f st)
      as (st1 & Hrun1 & _).
    rewrite Hrun1. intros Hrun Herr.
    destruct (IH _ Hrun Herr) as (Herr1 & Hext1 & Hset1).
    destruct (sync_file_settles _ _ _ _ _ _ Hrun1 Herr1) as (Herr0 & Hext0 & Hset0).
    split; [done|]. split; [by eapply extends_trans|].
    intros f' [<-|Hin]; [by eapply settled_extends | by apply Hset1].
Qed.

Lemma sync_dirs_settle src dst triples st st' :
  for_each triples (sync_dir src dst) st = (Ret tt, st') →
  res_errors (ss_results st') = [] →
  res_errors (ss_results st) = []
  ∧ extends (ss_world st) (ss_world st')
  ∧ ∀ root dirs files, In (root, dirs, files) triples →
      all_dirs (mirror_dir src dst root) (ss_world st')
      ∧ ∀ f, In f files → settled src dst (ss_world st') (root, f).
Proof.
  revert st. induction triples as [|[[root dirs] files] triples IH]; intros st.
  - intros [= <-] Herr. split; [done|]. split; [apply extends_refl|]. by intros.
  - rewrite for_each_cons.
    destruct (sync_dir src dst (root, dirs, files) st) as [[[]|e] st1] eqn:Hdir;
      [|done].
    intros Hrun Herr. destruct (IH _ Hrun Herr) as (Herr1 & Hext1 & Hset1).
    unfold sync_dir, sys, zoom, bind in Hdir.
    change (os_makedirs (mirror_dir src dst root) (ss_world st))
      with (makedirs (mirror_dir src dst root) (ss_world st)) in Hdir.
    destruct (makedirs (mirror_dir src dst root) (ss_world st))
      as [[[]|e] w1] eqn:Hmk; [|done].
    destruct (makedirs_extends _ _ _ _ Hmk) as (Hextm & _ & Hdirs).
    destruct (sync_files_settle _ _ _ _ _ _ Hdir Herr1) as (Herr0 & Hext0 & Hset0).
    split; [done|].
    split; [eapply extends_trans; [|done]; by eapply extends_trans|].
    intros root' dirs' files' [[= <- <- <-]|Hin]; [|by eapply Hset1].
    split.
    + eapply all_dirs_extends; [by eapply extends_trans|]. by apply Hdirs.
    + intros f Hf. eapply settled_extends; [done|]. by apply Hset0.
Qed.

(** *** Mirroring a tree into an empty directory *)

Section mirror.
Variable dst : path.
Hypothesis Hdst : writable dst = true.

(** The files of one directory, none of which is at the destination. *)
Lemma copy_files fs :
  ∀ rel top r w,
    top = dst ++ rel →
    NoDup fs →
    (∀ f, In f fs → ∃ d, tree_lookup (src_tree w) (rel ++ [f]) = Some (File d)) →
    stat top w = Some ODir →
    (∀ f, In f fs → files w !! (top ++ [f]) = None) →
    ∃ w',
      for_each fs (sync_file [mount] dst (mount :: rel) top) (mk_sync_state r w)
      = (Ret tt,
         mk_sync_state (add_all_new (map (λ f, rel_str (rel ++ [f])) fs) r) w')
      ∧ src_tree w' = src_tree w ∧ today w' = today w
      ∧ copy_log w'
        = copy_log w ++ map (λ f, (mount :: rel ++ [f], top ++ [f], false)) fs
      ∧ (∀ f, In f fs →
           files w' !! (top ++ [f])
           = obj_of_node <$> tree_lookup (src_tree w) (rel ++ [f]))
      ∧ (∀ p, (∀ f, In f fs → p ≠ top ++ [f]) → files w' !! p = files w !! p).
Proof.
  induction fs as [|f fs IH]; intros rel top r w Htop Hnd Hsrc Hdir Habs.
  - exists w. simpl. rewrite add_all_new_nil, app_nil_r. by repeat split.
  - apply NoDup_cons in Hnd as [Hf Hnd].
    destruct (Hsrc f (or_introl eq_refl)) as (d & Hd).
    assert (writable top = true) as Hwt by (subst top; by apply writable_app).
    assert (writable (top ++ [f]) = true) as Hwr by by apply writable_app.
    assert (top ≠ top ++ [f]) as Hne.
    { intros Heq. apply (f_equal length) in Heq. rewrite length_app in Heq.
      simpl in Heq. lia. }
    pose (w1 := mk_world (src_tree w) (<[top ++ [f] := OFile d]> (files w))
                  (copy_log w ++ [((mount :: rel) ++ [f], top ++ [f], false)])
                  (today w)).
    assert (copy2 ((mount :: rel) ++ [f]) (top ++ [f]) false w = (Ret tt, w1))
      as Hcp.
    { apply copy2_new.
      - change ((mount :: rel) ++ [f]) with (mount :: (rel ++ [f])).
        by rewrite stat_mount, Hd.
      - by apply (readable_File (rel ++ [f]) d).
      - rewrite stat_writable by done. apply Habs. by left.
      - unfold dirname. by rewrite removelast_last.
      - rewrite <-(app_nil_r (top ++ [f])). by apply in_mount_writable. }
    destruct (IH rel top
                (add_new (rel_str (os_path_relpath (top ++ [f]) dst)) r) w1)
      as (w' & Hrun & Hsrc' & Htoday' & Hlog' & Hin' & Hout').
    { done. }
    { done. }
    { intros f' Hf'. apply Hsrc. by right. }
    { rewrite stat_writable by done. simpl. rewrite lookup_insert_ne by done.
      by rewrite <-stat_writable. }
    { intros f' Hf'. simpl. rewrite lookup_insert_ne.
      - apply Habs. by right.
      - intros Heq. apply app_inj_tail in Heq as [_ ->].
        by apply Hf, list_elem_of_In. }
    exists w'. rewrite for_each_cons.
    rewrite (sync_file_new _ _ _ _ _ _ _ w1); cycle 1.
    { change (exists_ (top ++ [f]) w = false). unfold exists_.
      rewrite stat_writable by done. rewrite Habs; [done|by left]. }
    { exact Hcp. }
    rewrite Hrun. split.
    { rewrite add_all_new_cons. simpl. subst top.
      rewrite <-app_assoc. by rewrite os_path_relpath_app by by destruct rel. }
    split; [done|]. split; [done|]. split.
    { rewrite Hlog'. simpl. by rewrite <-app_assoc. }
    split.
    + intros f' [<-|Hf'].
      * rewrite Hout'.
        -- simpl. by rewrite lookup_insert_eq, Hd.
        -- intros f' Hf' Heq. apply app_inj_tail in Heq as [_ ->].
           by apply Hf, list_elem_of_In.
      * by apply Hin'.
    + intros p Hp. rewrite Hout' by (intros f' Hf'; apply Hp; by right).
      simpl. apply lookup_insert_ne. intros Heq. by apply (Hp f); [left|].
Qed.

(** What the traversal of the sub-tree [t] at [src/rel] does when the
    mirror directory [dst/rel] can be created and nothing is below it:
    every file is new, and afterwards what is at and below [dst/rel] is
    [t]. *)
Definition mirror_spec (t : node) : Prop :=
  ∀ rel r w,
    wf_tree t = true →
    readable_tree t = true →
    Forall (λ n, valid_name n = true) rel →
    tree_lookup (src_tree w) rel = Some t →
    makedirs (dst ++ rel) w
      = (Ret tt, set_files (<[dst ++ rel := ODir]> (files w)) w) →
    empty_below (dst ++ rel) (files w) →
    ∃ w',
      for_each (walk_tree (mount :: rel) t) (sync_dir [mount] dst)
               (mk_sync_state r w)
      = (Ret tt, mk_sync_state (add_all_new (map rel_str (tree_files rel t)) r) w')
      ∧ src_tree w' = src_tree w ∧ today w' = today w
      ∧ copy_log w'
        = copy_log w
          ++ map (λ f, (mount :: f, dst ++ f, false)) (tree_files rel t)
      ∧ (∀ es, t = Dir es → mirrors (dst ++ rel) t (files w'))
      ∧ same_outside (dst ++ rel) (files w) (files w').

Lemma not_prefix_longer (p q : path) : q ≠ [] → ¬ (p ++ q) `prefix_of` p.
Proof.
  intros Hq [k Hk]. apply (f_equal length) in Hk.
  rewrite !length_app in Hk. destruct q; [done|]. simpl in Hk. lia.
Qed.

Lemma prefix_sibling (p : path) n m q :
  (p ++ [n]) `prefix_of` (p ++ m :: q) → n = m.
Proof.
  intros [k Hk]. rewrite <-app_assoc in Hk. apply app_inv_head in Hk.
  by injection Hk.
Qed.

(** The sub-directories of one directory, one after the other. *)
Lemma mirror_children cs :
  ∀ rel r w,
    Forall (λ e, mirror_spec e.2) cs →
    Forall (λ n, valid_name n = true) rel →
    Forall (λ n, valid_name n = true) (map fst cs) →
    NoDup (map fst cs) →
    (∀ n c, In (n, c) cs →
       wf_tree c = true ∧ readable_tree c = true
       ∧ tree_lookup (src_tree w) (rel ++ [n]) = Some c) →
    all_dirs (dst ++ rel) w →
    (∀ n es q, In (n, Dir es) cs → files w !! (dst ++ rel ++ n :: q) = None) →
    ∃ w',
      for_each (flat_map (λ '(n, c), walk_tree ((mount :: rel) ++ [n]) c) cs)
               (sync_dir [mount] dst) (mk_sync_state r w)
      = (Ret tt,
         mk_sync_state
           (add_all_new
              (map rel_str (flat_map (λ '(n, c), tree_files (rel ++ [n]) c) cs))
              r) w')
      ∧ src_tree w' = src_tree w ∧ today w' = today w
      ∧ copy_log w'
        = copy_log w
          ++ map (λ f, (mount :: f, dst ++ f, false))
                 (flat_map (λ '(n, c), tree_files (rel ++ [n]) c) cs)
      ∧ (∀ n es, In (n, Dir es) cs →
           mirrors (dst ++ rel ++ [n]) (Dir es) (files w'))
      ∧ (∀ p, (∀ n es, In (n, Dir es) cs → ¬ (dst ++ rel ++ [n]) `prefix_of` p) →
              files w' !! p = files w !! p).
Proof.
  induction cs as [|[n c] cs IHcs];
    intros rel r w IH Hrel Hnames Hnd Hsub Hdirs Habs.
  - exists w. simpl. rewrite add_all_new_nil, app_nil_r. by repeat split.
  - apply Forall_cons in IH as [IHc IH].
    apply Forall_cons in Hnames as [Hn Hnames].
    simpl in Hnd. apply NoDup_cons in Hnd as [Hfresh Hnd].
    destruct (Hsub n c (or_introl eq_refl)) as (Hwf & Hrd & Hlk).
    assert (Forall (λ n, valid_name n = true) (rel ++ [n])) as Hreln
      by (apply Forall_app; split; [done|by constructor]).
    (* the head entry *)
    assert (∃ w1,
      for_each (walk_tree ((mount :: rel) ++ [n]) c) (sync_dir [mount] dst)
               (mk_sync_state r w)
      = (Ret tt,
         mk_sync_state (add_all_new (map rel_str (tree_files (rel ++ [n]) c)) r) w1)
      ∧ src_tree w1 = src_tree w ∧ today w1 = today w
      ∧ copy_log w1
        = copy_log w
          ++ map (λ f, (mount :: f, dst ++ f, false)) (tree_files (rel ++ [n]) c)
      ∧ (∀ es, c = Dir es → mirrors (dst ++ rel ++ [n]) c (files w1))
      ∧ same_outside (dst ++ rel ++ [n]) (files w) (files w1))
      as (w1 & Hrun1 & Hsrc1 & Htoday1 & Hlog1 & Hmir1 & Hout1).
    { destruct c as [d|d|es].
      - exists w. simpl. rewrite add_all_new_nil, app_nil_r. by repeat split.
      - done.
      - apply IHc; try done.
        + rewrite (app_assoc dst rel [n]). apply makedirs_leaf; [done| |].
          * rewrite stat_writable by (by do 2 apply writable_app).
            rewrite <-app_assoc. by apply (Habs n es []); left.
          * rewrite <-(app_nil_r (_ ++ [n])).
            apply in_mount_writable. by do 2 apply writable_app.
        + intros q Hq. rewrite <-!app_assoc. by apply (Habs n es q); left. }
    (* the entries after it *)
    destruct (IHcs rel (add_all_new (map rel_str (tree_files (rel ++ [n]) c)) r) w1)
      as (w' & Hrun & Hsrc' & Htoday' & Hlog' & Hmir' & Hout'); try done.
    { intros n' c' Hin. rewrite Hsrc1. apply Hsub. by right. }
    { intros k Hk. unfold stat. rewrite Hsrc1.
      specialize (Hdirs k Hk). unfold stat in Hdirs.
      destruct (take k (dst ++ rel)) as [|s p] eqn:Htake; [done|].
      destruct (in_mount (s :: p)); [done|].
      rewrite Hout1; [done|]. rewrite <-Htake. intros Hpre.
      apply prefix_length in Hpre. rewrite !length_app, length_take in Hpre.
      simpl in Hpre. rewrite length_app in Hk. lia. }
    { intros n' es' q Hin.
      rewrite Hout1; [apply (Habs n' es' q); by right|].
      rewrite !app_assoc. intros Hpre. apply prefix_sibling in Hpre as ->.
      apply Hfresh, list_elem_of_In. by apply (in_map fst _ (n', Dir es')). }
    exists w'. cbn [flat_map]. rewrite for_each_app, Hrun1, Hrun.
    split; [by rewrite add_all_new_app, map_app|].
    split; [congruence|]. split; [congruence|].
    split; [by rewrite Hlog', Hlog1, map_app, <-app_assoc|].
    split.
    + intros n' es' [[= -> ->]|Hin]; [|by eapply Hmir'].
      intros q. rewrite Hout'; [by eapply Hmir1|].
      intros m es2 Hin. rewrite !app_assoc. intros Hpre.
      rewrite <-(app_assoc _ [n'] q) in Hpre. apply prefix_sibling in Hpre as ->.
      apply Hfresh, list_elem_of_In. by apply (in_map fst _ (n', Dir es2)).
    + intros p Hp. rewrite Hout' by (intros n' es' Hin; apply (Hp n' es'); by right).
      destruct c as [d|d|es].
      * simpl in Hrun1. unfold ret in Hrun1. by injection Hrun1 as _ <-.
      * done.
      * apply Hout1. apply (Hp n es). by left.
Qed.

Lemma app_cons_ne_app_single (p : path) n q f :
  p ++ n :: q = p ++ [f] → n = f ∧ q = [].
Proof. intros Heq. apply app_inv_head in Heq. by injection Heq. Qed.

Lemma mirror_tree t : mirror_spec t.
Proof.
  induction t as [d|d|es IH] using node_ind';
    intros rel r w Hwf Hrd Hrel Hlk Hmk Hemp.
  { exists w. simpl. rewrite add_all_new_nil, app_nil_r.
    repeat split; try done. }
  { done. }
  destruct (wf_tree_Dir _ Hwf) as (Hnames & Hnd & Hsub).
  pose proof (readable_tree_Dir _ Hrd) as Hrsub.
  assert (∀ f, In f (file_names es) → ∃ d, In (f, File d) es) as Hfiles.
  { intros f Hf. apply In_file_names in Hf as (c & d & Hin & Hc).
    pose proof (Hrsub _ _ Hin). destruct c; simplify_eq/=. by exists d. }
  set (top := dst ++ rel) in *.
  assert (writable top = true) as Hwt by by apply writable_app.
  pose (w1 := set_files (<[top := ODir]> (files w)) w).
  assert (∀ n c, In (n, c) es → tree_lookup (src_tree w) (rel ++ [n]) = Some c)
    as Hchild.
  { intros n c Hin. rewrite tree_lookup_app, Hlk. simpl.
    by rewrite (lookup_entry_In n c es). }
  (* the files of the directory *)
  destruct (copy_files (file_names es) rel top r w1)
    as (w2 & Hrun2 & Hsrc2 & Htoday2 & Hlog2 & Hin2 & Hout2).
  { done. }
  { by apply NoDup_file_names. }
  { intros f Hf. apply Hfiles in Hf as (d & Hin). exists d.
    by apply Hchild. }
  { rewrite stat_writable by done. simpl. by rewrite lookup_insert_eq. }
  { intros f Hf. simpl. rewrite lookup_insert_ne.
    - by apply Hemp.
    - intros Heq. by apply (not_prefix_longer top [f]); [|exists []; rewrite app_nil_r]. }
  (* its sub-directories *)
  destruct (mirror_children es rel
              (add_all_new (map (λ f, rel_str (rel ++ [f])) (file_names es)) r) w2)
    as (w3 & Hrun3 & Hsrc3 & Htoday3 & Hlog3 & Hmir3 & Hout3).
  { exact IH. }
  { exact Hrel. }
  { exact Hnames. }
  { exact Hnd. }
  { intros n c Hin. split; [by eapply Hsub|]. split; [by eapply Hrsub|].
    rewrite Hsrc2. by apply Hchild. }
  { fold top. destruct (makedirs_extends _ _ _ _ Hmk) as (_ & _ & Hdirs).
    specialize (Hdirs eq_refl). intros k Hk. specialize (Hdirs k Hk).
    unfold stat in *. rewrite Hsrc2.
    destruct (take k top) as [|s p] eqn:Htake; [done|].
    destruct (in_mount (s :: p)); [done|].
    rewrite Hout2; [done|]. intros f _ Heq. apply (f_equal length) in Heq.
    rewrite <-Htake, length_app, length_take in Heq. simpl in Heq. lia. }
  { intros n es' q Hin. rewrite (app_assoc dst rel). fold top.
    rewrite Hout2.
    - simpl. rewrite lookup_insert_ne; [by apply Hemp|].
      intros Heq. by apply (not_prefix_longer top (n :: q));
        [|exists []; rewrite app_nil_r].
    - intros f Hf Heq. apply app_cons_ne_app_single in Heq as [-> ->].
      apply Hfiles in Hf as (d & Hf).
      pose proof (lookup_entry_In _ _ _ Hnd Hf).
      pose proof (lookup_entry_In _ _ _ Hnd Hin). congruence. }
  exists w3. cbn [walk_tree]. rewrite for_each_cons.
  unfold sync_dir at 1. rewrite mirror_dir_mount by done. fold top.
  unfold sys, zoom, bind. cbn [ss_world ss_results].
  change (os_makedirs top w) with (makedirs top w). rewrite Hmk.
  unfold set_world. cbn [ss_results]. fold w1. rewrite Hrun2, Hrun3.
  split.
  { rewrite add_all_new_app. cbn [tree_files]. by rewrite map_app, map_map. }
  split; [by rewrite Hsrc3, Hsrc2|]. split; [by rewrite Htoday3, Htoday2|].
  split.
  { rewrite Hlog3, Hlog2. cbn [tree_files]. simpl copy_log.
    rewrite map_app, map_map, <-app_assoc. do 2 f_equal.
    apply map_ext. intros f. unfold top. by rewrite <-app_assoc. }
  (* what is where afterwards *)
  assert (∀ n q, (∀ es', ¬ In (n, Dir es') es) →
             files w3 !! (top ++ n :: q) = files w2 !! (top ++ n :: q)) as Hkeep3.
  { intros n q Hn. apply Hout3. intros m es' Hin.
    rewrite (app_assoc dst rel). fold top. intros Hpre.
    apply prefix_sibling in Hpre as ->. by apply (Hn es'). }
  assert (∀ n q, (q = [] → ∀ d, ¬ In (n, File d) es) →
             files w2 !! (top ++ n :: q) = None) as Hnone2.
  { intros n q Hn. rewrite Hout2.
    - simpl. rewrite lookup_insert_ne; [by apply Hemp|].
      intros Heq. by apply (not_prefix_longer top (n :: q));
        [|exists []; rewrite app_nil_r].
    - intros f Hf Heq. apply app_cons_ne_app_single in Heq as [-> ->].
      apply Hfiles in Hf as (d & Hf). by apply (Hn eq_refl d). }
  split.
  - intros es0 _ [|n q].
    + rewrite app_nil_r. simpl. rewrite Hout3, Hout2.
      * simpl. by rewrite lookup_insert_eq.
      * intros f _ Heq. by apply (not_prefix_longer top [f]);
          [|exists []; rewrite app_nil_r].
      * intros m es' _. rewrite (app_assoc dst rel). fold top.
        by apply not_prefix_longer.
    + simpl. destruct (lookup_entry n es) as [[d|d|es']|] eqn:Hn.
      * apply lookup_entry_Some in Hn.
        rewrite Hkeep3; cycle 1.
        { intros es' Hin. pose proof (lookup_entry_In _ _ _ Hnd Hn).
          pose proof (lookup_entry_In _ _ _ Hnd Hin). congruence. }
        destruct q as [|m q].
        -- rewrite Hin2 by (apply In_file_names; by exists (File d), d).
           simpl. by rewrite (Hchild n (File d)).
        -- simpl. apply Hnone2. done.
      * apply lookup_entry_Some in Hn. by pose proof (Hrsub _ _ Hn).
      * apply lookup_entry_Some in Hn.
        pose proof (Hmir3 n es' Hn q) as Hq.
        rewrite <-!app_assoc in Hq. simpl in Hq. unfold top.
        by rewrite <-app_assoc.
      * rewrite Hkeep3; cycle 1.
        { intros es' Hin. by rewrite (lookup_entry_In _ _ _ Hnd Hin) in Hn. }
        apply Hnone2. intros _ d Hin.
        by rewrite (lookup_entry_In _ _ _ Hnd Hin) in Hn.
  - intros p Hp. rewrite Hout3, Hout2.
    + simpl. apply lookup_insert_ne. intros <-. by apply Hp.
    + intros f _ ->. apply Hp. by exists [f].
    + intros n es' _ [k ->]. apply Hp. exists ([n] ++ k).
      unfold top. by rewrite <-!app_assoc.
Qed.

End mirror.

(** The directories of a well-formed tree are the paths that lead to a
    directory. *)
Lemma In_tree_dirs t :
  ∀ rel q, wf_tree t = true →
    In q (tree_dirs rel t)
    ↔ ∃ q' es, q = rel ++ q' ∧ tree_lookup t q' = Some (Dir es).
Proof.
  induction t as [d|d|es IH] using node_ind'; intros rel q Hwf.
  - simpl. split; [done|]. by intros ([|n q'] & es & _ & ?).
  - simpl. split; [done|]. by intros ([|n q'] & es & _ & ?).
  - destruct (wf_tree_Dir _ Hwf) as (_ & Hnd & Hsub).
    rewrite Forall_forall in IH. cbn [tree_dirs]. split.
    + intros [<-|Hin].
      * exists [], es. by rewrite app_nil_r.
      * apply in_flat_map in Hin as ([n c] & Hnc & Hin).
        apply (IH (n, c)) in Hin as (q' & es' & -> & Hq');
          [|by apply list_elem_of_In|by eapply Hsub].
        exists (n :: q'), es'. rewrite <-app_assoc. split; [done|].
        simpl. by rewrite (lookup_entry_In n c es).
    + intros ([|n q'] & es' & -> & Hq').
      * left. by rewrite app_nil_r.
      * right. simpl in Hq'.
        destruct (lookup_entry n es) as [c|] eqn:Hn; [|done].
        apply lookup_entry_Some in Hn.
        apply in_flat_map. exists (n, c). split; [done|].
        apply (IH (n, c)); [by apply list_elem_of_In|by eapply Hsub|].
        exists q', es'. by rewrite <-app_assoc.
Qed.

Lemma walk_mount w : walk [mount] w = walk_tree [mount] (src_tree w).
Proof. reflexivity. Qed.

Lemma sync_copy_Ret_inv src dst (w : world) r w' :
  sync_copy src dst w = (Ret r, w') →
  os_path_exists src w = true ∧ os_path_isdir src w = true.
Proof.
  unfold sync_copy, os_path_abspath.
  destruct (os_path_exists src w); [|done].
  by destruct (os_path_isdir src w).
Qed.

(** A run that recorded no error keeps what was there. *)
Lemma sync_copy_extends src dst w r1 w1 :
  sync_copy src dst w = (Ret r1, w1) → res_errors r1 = [] → extends w w1.
Proof.
  intros Hrun Herr.
  destruct (sync_copy_Ret_inv _ _ _ _ _ Hrun) as [Hex Hdir].
  rewrite sync_copy_checked in Hrun by done.
  destruct (for_each (os_walk src w) (sync_dir src dst)
              (mk_sync_state empty_result w)) as [[[]|e] st1] eqn:Hloop; [|done].
  injection Hrun as <- <-.
  by destruct (sync_dirs_settle _ _ _ _ _ Hloop Herr) as (_ & Hext & _).
Qed.

(** The traversal of the read-only source lists the same in every world
    that has the same source tree. *)
Lemma walk_mount_extends w w1 : extends w w1 → walk [mount] w1 = walk [mount] w.
Proof. intros (Hsrc & _ & _). by rewrite !walk_mount, Hsrc. Qed.

(** After a run that recorded no error and left what the traversal of the
    source lists as it was, a second run on the world the first one left
    skips every file and changes nothing. *)
Lemma second_run_skips src dst w r1 w1 :
  sync_copy src dst w = (Ret r1, w1) →
  res_errors r1 = [] →
  walk src w1 = walk src w →
  sync_copy src dst w1
  = (Ret (add_all_skipped
            (map (dst_entry src dst) (walked_files (walk src w)))
            empty_result), w1).
Proof.
  intros Hrun Herr Hwalk.
  destruct (sync_copy_Ret_inv _ _ _ _ _ Hrun) as [Hex Hdir].
  rewrite sync_copy_checked in Hrun by done.
  destruct (for_each (os_walk src w) (sync_dir src dst)
              (mk_sync_state empty_result w)) as [[[]|e] st1] eqn:Hloop; [|done].
  injection Hrun as <- <-.
  destruct (sync_dirs_settle _ _ _ _ _ Hloop Herr) as (_ & Hext & Hset).
  simpl in Hext.
  rewrite sync_copy_checked.
  - change (os_walk src (ss_world st1)) with (walk src (ss_world st1)).
    rewrite Hwalk.
    change (walk src w) with (os_walk src w).
    rewrite sync_dirs_skip; [done|].
    intros root dirs files Hin. destruct (Hset root dirs files Hin) as [Hdirs Hfiles].
    split; [by apply makedirs_noop|]. intros f Hf. apply (Hfiles f Hf).
  - by apply (exists_extends w).
  - change (isdir src (ss_world st1) = true).
    change (isdir src w = true) in Hdir. unfold isdir in *.
    destruct (stat src w) as [[|]|] eqn:Hst; try done.
    by rewrite (stat_extends _ _ _ _ Hext Hst).
Qed.

(** A run into an empty directory: every file is new, and afterwards the
    directory holds the source tree. *)
Lemma sync_into_empty dst w es :
  src_tree w = Dir es →
  wf_tree (src_tree w) = true →
  readable_tree (src_tree w) = true →
  writable dst = true →
  all_dirs dst w →
  empty_below dst (files w) →
  ∃ w',
    sync_copy [mount] dst w
    = (Ret (add_all_new (map rel_str (tree_files [] (src_tree w))) empty_result),
       w')
    ∧ copy_log w'
      = copy_log w
        ++ map (λ f, (mount :: f, dst ++ f, false)) (tree_files [] (src_tree w))
    ∧ mirrors dst (src_tree w) (files w')
    ∧ same_outside dst (files w) (files w').
Proof.
  intros Hes Hwf Hrd Hdst Hdirs Hemp.
  assert (files w !! dst = Some ODir) as Hroot.
  { rewrite <-stat_writable by done. rewrite <-(firstn_all dst).
    apply Hdirs. destruct dst; [done|]. simpl. lia. }
  destruct (mirror_tree dst Hdst (src_tree w) [] empty_result w)
    as (w' & Hrun & _ & _ & Hlog & Hmir & Hout); try done.
  { rewrite app_nil_r, makedirs_noop by done.
    unfold set_files. rewrite insert_id by done. by destruct w. }
  { by rewrite app_nil_r. }
  exists w'. rewrite app_nil_r in *.
  rewrite sync_copy_checked.
  - change (os_walk [mount] w) with (walk_tree [mount] (src_tree w)).
    by rewrite Hrun, Hlog; eauto.
  - change (exists_ [mount] w = true). unfold exists_. by rewrite stat_mount.
  - change (isdir [mount] w = true). unfold isdir. rewrite stat_mount, Hes. done.
Qed.

End TreeFSFacts.

(* ===================================================================== *)
(** * Texts and their lines *)
(* ===================================================================== *)

Lemma append_nil_l (s : string) : "" +:+ s = s.
Proof. reflexivity. Qed.

Lemma append_cons (c : ascii) (a b : string) :
  String c a +:+ b = String c (a +:+ b).
Proof. reflexivity. Qed.

Lemma append_nil_r (s : string) : s +:+ "" = s.
Proof.
  induction s as [|c s IH]; [done|]. by rewrite append_cons, IH.
Qed.

Lemma append_assoc (a b c : string) : (a +:+ b) +:+ c = a +:+ b +:+ c.
Proof.
  induction a as [|x a IH]; [done|]. by rewrite !append_cons, IH.
Qed.

Lemma join_cons (x : string) (l : list string) : join (x :: l) = x +:+ join l.
Proof. reflexivity. Qed.

Lemma concat_join (l : list string) : String.concat "" l = join l.
Proof.
  induction l as [|x l IH]; [done|]. rewrite join_cons, <-IH.
  destruct l as [|y l]; [by rewrite append_nil_r|]. reflexivity.
Qed.

Lemma join_app (l1 l2 : list string) : join (l1 ++ l2) = join l1 +:+ join l2.
Proof.
  induction l1 as [|x l1 IH]; [done|].
  by rewrite <-app_comm_cons, !join_cons, IH, append_assoc.
Qed.

Lemma no_newline_app (a b : string) :
  no_newline (a +:+ b) = no_newline a && no_newline b.
Proof.
  induction a as [|c a IH]; [done|].
  rewrite append_cons. simpl. by rewrite IH, andb_assoc.
Qed.

Lemma str_int_no_newline (n : nat) : no_newline (str_int n) = true.
Proof.
  unfold str_int. induction (Nat.to_uint n) as [|d IH|d IH|d IH|d IH|d IH
    |d IH|d IH|d IH|d IH|d IH]; simpl; done.
Qed.

Lemma zfill_no_newline (k : nat) (s : string) :
  no_newline s = true → no_newline (zfill k s) = true.
Proof.
  intros Hs. unfold zfill.
  induction (k - String.length s)%nat as [|j IH]; simpl; done.
Qed.

Lemma strftime_no_newline (d : date) : no_newline (strftime_Ymd d) = true.
Proof.
  unfold strftime_Ymd. rewrite !no_newline_app.
  by rewrite !zfill_no_newline by apply str_int_no_newline.
Qed.

Lemma lines_nl (r : string) : lines (nl +:+ r) = "" :: lines r.
Proof. reflexivity. Qed.

(** A first line without a line feed, then the rest. *)
Lemma lines_app_nl (a r : string) :
  no_newline a = true → lines (a +:+ nl +:+ r) = a :: lines r.
Proof.
  induction a as [|c a IH]; [done|].
  rewrite append_cons. simpl.
  intros [Hc Ha]%andb_true_iff. rewrite IH by done.
  by destruct (Ascii.eqb c "010").
Qed.

(** Whatever comes first, a line feed ends a line. *)
Lemma lines_app_nl_any (x y : string) :
  ∃ L, L ≠ [] ∧ lines (x +:+ nl +:+ y) = L ++ lines y.
Proof.
  induction x as [|c x (L & HL & IH)].
  - by exists [""].
  - rewrite append_cons. simpl. rewrite IH. destruct (Ascii.eqb c "010").
    + by exists ("" :: L).
    + destruct L as [|l L]; [done|]. by exists (String c l :: L).
Qed.

Lemma lines_single (a : string) : no_newline a = true → lines (a +:+ nl) = [a].
Proof.
  intros Ha. replace (a +:+ nl) with (a +:+ nl +:+ "") by by rewrite append_nil_r.
  by rewrite lines_app_nl.
Qed.

(** A text that ends in a line feed, the line [a], and a line feed ends
    with the line [a]. *)
Lemma last_lines (x a : string) :
  no_newline a = true → last (lines (x +:+ nl +:+ a +:+ nl)) = Some a.
Proof.
  intros Ha. destruct (lines_app_nl_any x (a +:+ nl)) as (L & HL & ->).
  by rewrite lines_single, last_snoc.
Qed.

(** *** The text of a report *)

Section report.
Context {world : Type} `{!OS world}.

(** The text of a report, in three parts. *)
Lemma report_text_parts date_str results :
  report_text date_str results
  = join (map (λ l, l +:+ nl)
            (summary_lines date_str
               (length (dict_get results "new"))
               (length (dict_get results "overwritten"))
               (length (dict_get results "skipped"))
               (length (dict_get results "errors"))))
    +:+ errors_section (dict_get results "errors")
    +:+ "End of report" +:+ nl.
Proof.
  unfold report_text, report_writes. rewrite concat_join, !join_app.
  replace (join ["End of report" +:+ nl]) with ("End of report" +:+ nl)
    by (cbn [join fold_right]; by rewrite append_nil_r).
  match goal with
  | |- _ +:+ join ?b +:+ _ = _ =>
      replace (join b) with (errors_section (dict_get results "errors"))
  end.
  - unfold summary_lines. cbn [map join fold_right].
    by rewrite !append_assoc, !append_nil_l.
  - unfold errors_section.
    destruct (dict_get results "errors") as [|e errors]; [done|].
    rewrite !join_app. cbn [join fold_right].
    by rewrite !append_nil_r, !append_assoc.
Qed.

Lemma lines_app2_nl (a b r : string) :
  no_newline a = true → no_newline b = true →
  lines (a +:+ b +:+ nl +:+ r) = (a +:+ b) :: lines r.
Proof.
  intros Ha Hb. rewrite <-append_assoc.
  apply lines_app_nl. by rewrite no_newline_app, Ha, Hb.
Qed.

(** The lines of a report: the summary block, then the lines of the rest. *)
Lemma report_lines date_str results :
  no_newline date_str = true →
  lines (report_text date_str results)
  = summary_lines date_str
      (length (dict_get results "new"))
      (length (dict_get results "overwritten"))
      (length (dict_get results "skipped"))
      (length (dict_get results "errors"))
    ++ lines (errors_section (dict_get results "errors")
                +:+ "End of report" +:+ nl).
Proof.
  intros Hdate. rewrite report_text_parts.
  unfold summary_lines. cbn [map join fold_right].
  rewrite !append_assoc, !append_nil_l.
  rewrite lines_app2_nl by done.
  rewrite lines_app_nl by done.
  do 4 (rewrite lines_app2_nl by (done || apply str_int_no_newline)).
  by rewrite lines_nl.
Qed.

Lemma report_lines_no_errors date_str results :
  no_newline date_str = true →
  dict_get results "errors" = [] →
  lines (report_text date_str results)
  = summary_lines date_str
      (length (dict_get results "new"))
      (length (dict_get results "overwritten"))
      (length (dict_get results "skipped")) 0
    ++ ["End of report"].
Proof. intros Hdate Herr. rewrite report_lines by done. by rewrite Herr. Qed.

Lemma report_lines_errors date_str results :
  no_newline date_str = true →
  dict_get results "errors" ≠ [] →
  ∃ rest,
    lines (report_text date_str results)
    = summary_lines date_str
        (length (dict_get results "new"))
        (length (dict_get results "overwritten"))
        (length (dict_get results "skipped"))
        (length (dict_get results "errors"))
      ++ "Errors:" :: rest.
Proof.
  intros Hdate Herr. rewrite report_lines by done. unfold errors_section.
  destruct (dict_get results "errors") as [|e errors]; [done|].
  rewrite !append_assoc, lines_app_nl by done. eauto.
Qed.

(** The lines of lines without line feeds. *)
Lemma lines_join (ls : list string) (r : string) :
  Forall (λ l, no_newline l = true) ls →
  lines (join (map (λ l, l +:+ nl) ls) +:+ r) = ls ++ lines r.
Proof.
  induction 1 as [|l ls Hl Hls IH]; [done|].
  cbn [map join fold_right]. rewrite !append_assoc.
  rewrite lines_app_nl by done. fold (join (map (λ l, l +:+ nl) ls)).
  by rewrite IH.
Qed.

(** The lines of the errors section, for errors without line feeds. *)
Lemma errors_section_lines (errors : list string) (r : string) :
  Forall (λ e, no_newline e = true) errors →
  lines (errors_section errors +:+ r)
  = match errors with
    | [] => []
    | _ :: _ => "Errors:" :: map (λ e, "  " +:+ e) errors ++ [""]
    end ++ lines r.
Proof.
  intros Herr. destruct errors as [|e errors]; [done|].
  unfold errors_section. rewrite !append_assoc, lines_app_nl by done.
  replace (map (λ e0, "  " +:+ e0 +:+ nl) (e :: errors))
    with (map (λ l, l +:+ nl) (map (λ e0, "  " +:+ e0) (e :: errors)))
    by (rewrite map_map; apply map_ext; intros; by rewrite append_assoc).
  rewrite lines_join, lines_nl.
  - rewrite <-app_comm_cons. f_equal. by rewrite <-app_assoc.
  - apply Forall_map. eapply Forall_impl; [exact Herr|]. by intros x Hx.
Qed.

(** The first character of a text. *)
Definition first_char (s : string) : option ascii :=
  match s with
  | EmptyString => None
  | String c _ => Some c
  end.

Lemma Errors_line_not_in_summary date_str n o s e :
  ¬ In "Errors:" (summary_lines date_str n o s e ++ ["End of report"]).
Proof.
  unfold summary_lines. simpl.
  intros [H|[H|[H|[H|[H|[H|[H|[H|[]]]]]]]]]; try discriminate H;
    apply (f_equal first_char) in H; discriminate H.
Qed.

(** The errors section is in the report exactly when there are errors. *)
Lemma Errors_line_iff date_str results :
  no_newline date_str = true →
  In "Errors:" (lines (report_text date_str results))
  ↔ dict_get results "errors" ≠ [].
Proof.
  intros Hdate. split.
  - intros Hin Herr. rewrite report_lines_no_errors in Hin by done.
    by apply Errors_line_not_in_summary in Hin.
  - intros Herr. destruct (report_lines_errors _ _ Hdate Herr) as (rest & ->).
    apply in_or_app. right. by left.
Qed.

(** A report ends with its closing line. *)
Lemma report_last_line date_str results :
  no_newline date_str = true →
  last (lines (report_text date_str results)) = Some "End of report".
Proof.
  intros Hdate. rewrite report_lines, last_app by done.
  unfold errors_section.
  destruct (dict_get results "errors") as [|e errors]; [done|].
  rewrite !append_assoc.
  rewrite <-(append_assoc "Errors:" nl), <-(append_assoc ("Errors:" +:+ nl)).
  by rewrite last_lines.
Qed.

(** What [write_report] does: the directory, then the file with the text
    of the report, under the dated name. *)
Lemma write_report_unfold results report_directory file_name w :
  write_report results report_directory file_name w
  = let date_str := strftime_Ymd (datetime_now w) in
    let report_path :=
      report_directory ++ [date_str +:+ "_" +:+ file_name +:+ ".txt"] in
    match os_makedirs report_directory w with
    | (Ret _, w1) =>
        match open_write report_path (report_text date_str results) w1 with
        | (Ret _, w2) => (Ret report_path, w2)
        | (Raise e, w2) => (Raise e, w2)
        end
    | (Raise e, w1) => (Raise e, w1)
    end.
Proof.
  unfold write_report, chicago_today_str, os_path_join. unfold_monad.
  destruct (os_makedirs report_directory w) as [[[]|e] w1]; [|done].
  by destruct (open_write _ _ w1) as [[[]|e] w2].
Qed.

Lemma write_error_report_unfold error_message report_directory file_name w :
  write_error_report error_message report_directory file_name w
  = let date_str := strftime_Ymd (datetime_now w) in
    let report_path :=
      report_directory ++ [date_str +:+ "_" +:+ file_name +:+ ".txt"] in
    match os_makedirs report_directory w with
    | (Ret _, w1) =>
        match open_write report_path
                (String.concat "" (error_report_writes date_str error_message))
                w1 with
        | (Ret _, w2) => (Ret report_path, w2)
        | (Raise e, w2) => (Raise e, w2)
        end
    | (Raise e, w1) => (Raise e, w1)
    end.
Proof.
  unfold write_error_report, chicago_today_str, os_path_join. unfold_monad.
  destruct (os_makedirs report_directory w) as [[[]|e] w1]; [|done].
  by destruct (open_write _ _ w1) as [[[]|e] w2].
Qed.

(** *** Dictionaries with keys missing *)

Lemma dict_get_with_defaults results key :
  In key ["new"; "overwritten"; "skipped"; "errors"] →
  dict_get (with_defaults results) key = dict_get results key.
Proof.
  unfold with_defaults, result_dict, dict_get at 1. simpl.
  intros [<-|[<-|[<-|[<-|[]]]]];
    repeat (rewrite lookup_insert_ne by done); by rewrite lookup_insert_eq.
Qed.

Lemma report_text_with_defaults date_str results :
  report_text date_str (with_defaults results) = report_text date_str results.
Proof.
  unfold report_text.
  by rewrite !dict_get_with_defaults by (simpl; tauto).
Qed.

End report.

(* ===================================================================== *)
(** * The command line: what it reports *)
(* ===================================================================== *)

Section main.
Context {world : Type} `{!OS world}.

(** The lines of an error report. *)
Lemma error_report_lines date_str error_message :
  no_newline date_str = true →
  no_newline error_message = true →
  lines (String.concat "" (error_report_writes date_str error_message))
  = [ "Report date (America/Chicago): " +:+ date_str;
      "Summary:";
      "  New files:         0";
      "  Overwritten files: 0";
      "  Skipped files:     0";
      "  Errors:            1";
      "";
      "Errors:";
      "  " +:+ error_message;
      "";
      "End of report" ].
Proof.
  intros Hdate Hmsg. rewrite concat_join. unfold error_report_writes.
  cbn [join fold_right]. rewrite !append_assoc, !append_nil_r.
  rewrite lines_app2_nl by done.
  do 5 (rewrite lines_app_nl by done). rewrite lines_nl.
  rewrite lines_app_nl by done.
  rewrite lines_app2_nl by done. rewrite lines_nl.
  by rewrite lines_single.
Qed.

(** When the body of [main] raises and the error report can be written, the
    report is written with the message of the exception, and the message
    and the path of the report are printed. *)
Lemma main_failure_reported args s exc s1 report_path w2 :
  let report_dir := default (args_dst args) (args_report_dir args) in
  main_body (args_src args) (args_dst args) report_dir (args_file_name args) s
    = (Raise exc, s1) →
  write_error_report (exn_str exc) report_dir (args_file_name args) (ps_world s1)
    = (Ret report_path, w2) →
  main args s
  = (Ret tt,
     mk_proc_state w2
       (ps_stdout s1
          ++ [ "Fatal error: " +:+ exn_str exc;
               "Error report written to: " +:+ abs_str report_path ])).
Proof.
  intros report_dir Hbody Hrep. unfold main, try_except. fold report_dir.
  rewrite Hbody. unfold main_handler, io, print. unfold_monad.
  rewrite Hrep. simpl. by rewrite <-app_assoc.
Qed.

(** When the error report cannot be written either, the exception of the
    report writer leaves [main]. *)
Lemma main_failure_unreported args s exc s1 e w2 :
  let report_dir := default (args_dst args) (args_report_dir args) in
  main_body (args_src args) (args_dst args) report_dir (args_file_name args) s
    = (Raise exc, s1) →
  write_error_report (exn_str exc) report_dir (args_file_name args) (ps_world s1)
    = (Raise e, w2) →
  main args s = (Raise e, mk_proc_state w2 (ps_stdout s1)).
Proof.
  intros report_dir Hbody Hrep. unfold main, try_except. fold report_dir.
  rewrite Hbody. unfold main_handler, io, print. unfold_monad.
  by rewrite Hrep.
Qed.

End main.

(* ===================================================================== *)
(** * The specification, claim by claim: on every operating system *)
(* ===================================================================== *)

Section claims.
Context {world : Type} `{!OS world}.

Lemma file_outcome_recorded_once src dst root dst_dir fname st st' :
  file_outcome src dst root dst_dir fname st st' →
  recorded_once src dst root dst_dir fname (ss_results st) (ss_results st').
Proof.
  unfold recorded_once, os_path_join.
  intros [? ? Hr|? ? ? ? ? Hr|? Hr]; rewrite Hr; eauto 6.
Qed.


(** C3, as amended (the errors of one file are caught; a directory that
    cannot be created is not).  An exception that the classification or the
    copy of one file raises is caught: the turn of the loop returns, with
    the entry ["<source-relative path> -> <message>"] added to [errors];
    the loop over the files of a directory always runs to its end; and when
    [sync_copy] raises although the source exists and is a directory, the
    exception is one that [os.makedirs] raised on the mirror of a walked
    directory. *)
Theorem file_errors_are_caught (src dst : path) :
  (∀ root dst_dir fname st e st1,
      sync_file_body dst (root ++ [fname]) (dst_dir ++ [fname]) st
        = (Raise e, st1) →
      sync_file src dst root dst_dir fname st
      = (Ret tt,
         mk_sync_state
           (add_errors (error_entry src root fname e) (ss_results st1))
           (ss_world st1)))
  ∧ (∀ root dst_dir files st,
       fst (for_each files (sync_file src dst root dst_dir) st) = Ret tt)
  ∧ (∀ w e,
       os_path_exists src w = true →
       os_path_isdir src w = true →
       fst (sync_copy src dst w) = Raise e →
       ∃ root dirs files w1,
         In (root, dirs, files) (os_walk src w)
         ∧ fst (os_makedirs (mirror_dir src dst root) w1) = Raise e).
Proof.
  split; [|split].
  - intros root dst_dir fname st e st1 Hbody.
    unfold sync_file, try_except, os_path_join. by rewrite Hbody.
  - intros root dst_dir files st.
    by destruct (sync_files_total_len src dst root dst_dir files st)
      as (st' & -> & _).
  - intros w e. apply sync_copy_raise_inv.
Qed.

(** C6 (a destination of the same size is left alone).  Where the
    destination path exists and the two size lookups return the same
    number, the turn of the loop records the destination-relative path in
    [skipped] and returns the world as it found it: no call that writes was
    made, whatever the bytes of the two files are. *)
Theorem equal_size_is_skipped (src dst root dst_dir : path) (fname : string)
    (r : SyncResult) (w : world) (n : Z) :
  os_path_exists (dst_dir ++ [fname]) w = true →
  os_path_getsize (root ++ [fname]) w = Ret n →
  os_path_getsize (dst_dir ++ [fname]) w = Ret n →
  sync_file src dst root dst_dir fname (mk_sync_state r w)
  = (Ret tt,
     mk_sync_state
       (add_skipped (rel_str (os_path_relpath (dst_dir ++ [fname]) dst)) r) w).
Proof. apply sync_file_skip. Qed.

(** C9, as amended (the two precondition failures, and the one failure
    besides them).  [sync_copy] raises [FileNotFoundError] when the source
    does not exist and [NotADirectoryError] when it exists and is not a
    directory, in both cases before it touches anything; past these two
    checks it raises only what [os.makedirs] raises on the mirror of a
    walked directory. *)
Theorem sync_copy_failures (src dst : path) (w : world) :
  (os_path_exists src w = false →
   sync_copy src dst w
   = (Raise (mk_exn FileNotFoundError ("Source not found: " +:+ abs_str src)), w))
  ∧ (os_path_exists src w = true →
     os_path_isdir src w = false →
     sync_copy src dst w
     = (Raise (mk_exn NotADirectoryError
                 ("Source is not a directory: " +:+ abs_str src)), w))
  ∧ (os_path_exists src w = true →
     os_path_isdir src w = true →
     ∀ e, fst (sync_copy src dst w) = Raise e →
          ∃ root dirs files w1,
            In (root, dirs, files) (os_walk src w)
            ∧ fst (os_makedirs (mirror_dir src dst root) w1) = Raise e).
Proof.
  unfold sync_copy at 1 2, os_path_abspath. split; [|split].
  - by intros ->.
  - by intros -> ->.
  - intros Hex Hdir e. by apply sync_copy_raise_inv.
Qed.

(** C7 (the report of a result).  [write_report] creates the report
    directory and writes, under the dated name, a text whose third to sixth
    lines show the lengths of the four lists; the line [Errors:] is among
    the lines of the text exactly when the list of errors is not empty; the
    errors section, when there is one, is the line [Errors:], each error
    string after two spaces and before a line feed, and an empty line (for
    error strings without a line feed: one line each); and the last line is
    [End of report]. *)
Theorem report_matches_result (results : gmap string (list string))
    (report_directory : path) (file_name : string) (w : world) :
  let date_str := strftime_Ymd (datetime_now w) in
  let text := report_text date_str results in
  let errors := dict_get results "errors" in
  write_report results report_directory file_name w
  = (let report_path :=
       report_directory ++ [date_str +:+ "_" +:+ file_name +:+ ".txt"] in
     match os_makedirs report_directory w with
     | (Ret _, w1) =>
         match open_write report_path text w1 with
         | (Ret _, w2) => (Ret report_path, w2)
         | (Raise e, w2) => (Raise e, w2)
         end
     | (Raise e, w1) => (Raise e, w1)
     end)
  ∧ lines text !! 2%nat
    = Some ("  New files:         " +:+ str_int (length (dict_get results "new")))
  ∧ lines text !! 3%nat
    = Some ("  Overwritten files: "
              +:+ str_int (length (dict_get results "overwritten")))
  ∧ lines text !! 4%nat
    = Some ("  Skipped files:     "
              +:+ str_int (length (dict_get results "skipped")))
  ∧ lines text !! 5%nat
    = Some ("  Errors:            " +:+ str_int (length errors))
  ∧ (In "Errors:" (lines text) ↔ errors ≠ [])
  ∧ (errors ≠ [] →
     substring_of
       ("Errors:" +:+ nl +:+ join (map (λ e, "  " +:+ e +:+ nl) errors) +:+ nl)
       text)
  ∧ (Forall (λ e, no_newline e = true) errors →
     lines text
     = summary_lines date_str
         (length (dict_get results "new"))
         (length (dict_get results "overwritten"))
         (length (dict_get results "skipped"))
         (length errors)
       ++ match errors with
          | [] => []
          | _ :: _ => "Errors:" :: map (λ e, "  " +:+ e) errors ++ [""]
          end
       ++ ["End of report"])
  ∧ last (lines text) = Some "End of report".
Proof.
  intros date_str text errors.
  assert (no_newline date_str = true) as Hdate by apply strftime_no_newline.
  split; [apply write_report_unfold|].
  unfold text. rewrite report_lines by done.
  repeat (split; [reflexivity|]).
  split; [rewrite <-report_lines by done; by apply Errors_line_iff|].
  split.
  { intros Herr. rewrite report_text_parts. fold errors.
    unfold errors_section. destruct errors as [|e0 errors0]; [done|].
    by eexists _, _. }
  split.
  { intros Herr. fold errors. rewrite errors_section_lines by done.
    by rewrite lines_single. }
  rewrite <-report_lines by done. by apply report_last_line.
Qed.

(** C10 (a dictionary with keys missing).  [write_report] does with a
    dictionary what it does with the one in which every missing key is
    bound to the empty list; a missing key shows as the count [0] on its
    line, and a missing ["errors"] leaves the errors section out; and the
    function raises only what creating the directory or writing the file
    raises. *)
Theorem write_report_partial_dict (results : gmap string (list string))
    (report_directory : path) (file_name : string) (w : world) :
  let date_str := strftime_Ymd (datetime_now w) in
  let text := report_text date_str results in
  write_report results report_directory file_name w
  = write_report (with_defaults results) report_directory file_name w
  ∧ (results !! "new" = None →
     lines text !! 2%nat = Some "  New files:         0")
  ∧ (results !! "overwritten" = None →
     lines text !! 3%nat = Some "  Overwritten files: 0")
  ∧ (results !! "skipped" = None →
     lines text !! 4%nat = Some "  Skipped files:     0")
  ∧ (results !! "errors" = None →
     lines text !! 5%nat = Some "  Errors:            0"
     ∧ ¬ In "Errors:" (lines text))
  ∧ (∀ w1 w2,
       os_makedirs report_directory w = (Ret tt, w1) →
       open_write
         (report_directory ++ [date_str +:+ "_" +:+ file_name +:+ ".txt"])
         text w1 = (Ret tt, w2) →
       write_report results report_directory file_name w
       = (Ret (report_directory ++ [date_str +:+ "_" +:+ file_name +:+ ".txt"]),
          w2)).
Proof.
  intros date_str text.
  assert (no_newline date_str = true) as Hdate by apply strftime_no_newline.
  split.
  { rewrite !write_report_unfold. cbv zeta.
    by rewrite report_text_with_defaults. }
  unfold text. rewrite report_lines by done.
  split; [by intros Hk; unfold dict_get; rewrite Hk|].
  split; [by intros Hk; unfold dict_get at 2; rewrite Hk|].
  split; [by intros Hk; unfold dict_get at 3; rewrite Hk|].
  split.
  { intros Hk. assert (dict_get results "errors" = []) as Herr
      by (unfold dict_get; by rewrite Hk).
    rewrite Herr. split; [done|].
    apply Errors_line_not_in_summary. }
  intros w1 w2 Hmk Hwr. rewrite write_report_unfold. cbv zeta.
  fold date_str. by rewrite Hmk, Hwr.
Qed.

End claims.

(* ===================================================================== *)
(** * The specification, claim by claim: on the concrete file system *)
(* ===================================================================== *)

Module Claims.
Import TreeFS TreeFSFacts Examples.

(** *** Destinations of another size *)

(** C1 (failing input).  The source holds [a.txt] of five bytes and the
    destination an [a.txt] of two: the run returns with the file in
    [errors], under the message of the [NameError], with nothing in
    [overwritten], and the world is the one it started in: the two bytes
    are still there and [shutil.copy2] was never called. *)
Theorem size_mismatch_ends_in_errors :
  sync_copy src dst shorter_copy
  = (Ret (mk_result [] [] [] ["a.txt -> name 'false' is not defined"]),
     shorter_copy)
  ∧ getsize (src ++ ["a.txt"]) shorter_copy = Ret 5
  ∧ getsize (dst ++ ["a.txt"]) shorter_copy = Ret 2
  ∧ stat (dst ++ ["a.txt"]) shorter_copy = Some (OFile (bytes "hi"))
  ∧ copy_log shorter_copy = [].
Proof. repeat split; vm_compute; reflexivity. Qed.

(** *** Every file in one list *)


(** *** What raises and what does not *)

(** C3 (counterexample).  The source exists and is a directory, and the
    run raises all the same: [/dst/sub] is a regular file, and
    [os.makedirs] refuses it. *)
Lemma sync_copy_raises_past_the_checks :
  os_path_exists src file_in_the_way = true
  ∧ os_path_isdir src file_in_the_way = true
  ∧ fst (sync_copy src dst file_in_the_way)
    = Raise (mk_exn FileExistsError "[Errno 17] File exists: '/dst/sub'").
Proof. repeat split; vm_compute; reflexivity. Qed.

Lemma file_errors_are_caught_witness :
  sync_file src dst src dst "a.txt" (mk_sync_state empty_result shorter_copy)
  = (Ret tt,
     mk_sync_state
       (mk_result [] [] [] ["a.txt -> name 'false' is not defined"])
       shorter_copy)
  ∧ ∃ root dirs files w1,
      In (root, dirs, files) (os_walk src file_in_the_way)
      ∧ fst (os_makedirs (mirror_dir src dst root) w1)
        = Raise (mk_exn FileExistsError "[Errno 17] File exists: '/dst/sub'").
Proof.
  split.
  - apply (proj1 (file_errors_are_caught src dst) src dst "a.txt"
             (mk_sync_state empty_result shorter_copy)
             (mk_exn NameError "name 'false' is not defined")
             (mk_sync_state empty_result shorter_copy)).
    vm_compute. reflexivity.
  - apply (proj2 (proj2 (file_errors_are_caught src dst)) file_in_the_way);
      vm_compute; reflexivity.
Defined.

(** C9 (counterexample).  The source exists and is a directory, and the
    engine fails: the destination is a regular file. *)
Lemma sync_copy_fails_on_a_third_condition :
  os_path_exists src dst_is_a_file = true
  ∧ os_path_isdir src dst_is_a_file = true
  ∧ sync_copy src dst dst_is_a_file
    = (Raise (mk_exn FileExistsError "[Errno 17] File exists: '/dst'"),
       dst_is_a_file).
Proof. repeat split; vm_compute; reflexivity. Qed.

Lemma sync_copy_failures_witness :
  sync_copy ["nowhere"] dst empty_dst
  = (Raise (mk_exn FileNotFoundError "Source not found: /nowhere"), empty_dst)
  ∧ sync_copy (dst ++ ["a.txt"]) dst stale_copy
    = (Raise (mk_exn NotADirectoryError "Source is not a directory: /dst/a.txt"),
       stale_copy)
  ∧ ∃ root dirs files w1,
      In (root, dirs, files) (os_walk src dst_is_a_file)
      ∧ fst (os_makedirs (mirror_dir src dst root) w1)
        = Raise (mk_exn FileExistsError "[Errno 17] File exists: '/dst'").
Proof.
  split; [|split].
  - apply (proj1 (sync_copy_failures ["nowhere"] dst empty_dst)).
    vm_compute. reflexivity.
  - apply (proj1 (proj2 (sync_copy_failures (dst ++ ["a.txt"]) dst stale_copy)));
      vm_compute; reflexivity.
  - apply (proj2 (proj2 (sync_copy_failures src dst dst_is_a_file)));
      vm_compute; reflexivity.
Defined.

(** *** A destination of the same size *)

Lemma equal_size_is_skipped_witness :
  stat (src ++ ["a.txt"]) same_size_copy = Some (OFile (bytes "hello"))
  ∧ stat (dst ++ ["a.txt"]) same_size_copy = Some (OFile (bytes "HELLO"))
  ∧ sync_file src dst src dst "a.txt" (mk_sync_state empty_result same_size_copy)
    = (Ret tt,
       mk_sync_state (mk_result [] [] ["a.txt"] []) same_size_copy).
Proof.
  split; [reflexivity|]. split; [reflexivity|].
  apply (equal_size_is_skipped src dst src dst "a.txt" empty_result
           same_size_copy 5); vm_compute; reflexivity.
Defined.

(** *** An empty destination *)



Lemma empty_dst_all_dirs : all_dirs dst empty_dst.
Proof.
  intros k Hk. simpl in Hk. assert (k = 1%nat) as -> by lia. reflexivity.
Qed.

Lemma empty_dst_empty_below : empty_below dst (files empty_dst).
Proof.
  intros q Hq. simpl. apply lookup_singleton_ne.
  intros Heq. by apply (not_prefix_longer dst q); [|exists []; rewrite app_nil_r].
Qed.


(** *** Two runs in a row *)

(** C5 (counterexample).  Two pairs of runs whose second result is not the
    one of the claim.  [/dst/sub] is a regular file where the source has a
    directory: the first run raises, and so does the second, on the world
    the first one left; there is no second result.  And with the file
    [secret.txt] of the source unreadable and [/dst] empty, both runs
    return, and the second has the file in [errors] again and not in
    [skipped]. *)
Lemma second_run_not_all_skipped :
  (fst (sync_copy src dst skipped_then_blocked)
   = Raise (mk_exn FileExistsError "[Errno 17] File exists: '/dst/sub'")
   ∧ fst (sync_copy src dst (snd (sync_copy src dst skipped_then_blocked)))
     = Raise (mk_exn FileExistsError "[Errno 17] File exists: '/dst/sub'"))
  ∧ (fst (sync_copy src dst locked_source)
     = Ret (mk_result ["a.txt"] [] []
              ["secret.txt -> [Errno 13] Permission denied: '/src/secret.txt'"])
     ∧ fst (sync_copy src dst (snd (sync_copy src dst locked_source)))
       = Ret (mk_result [] [] ["a.txt"]
                ["secret.txt -> [Errno 13] Permission denied: '/src/secret.txt'"])).
Proof. repeat split; vm_compute; reflexivity. Qed.

(** C5, as amended (a second run after a run without errors that left the
    source as it was).  A run on any source and destination returns a
    result whose [errors] list is empty.  If the traversal of the source
    lists afterwards what it listed before, a second run on the world the
    first one left returns too: its [skipped] list holds the entry of every
    file the traversal lists, in the order of the walk, its three other
    lists are empty, and it changes nothing.  For the source tree on the
    read-only volume, which no run can change, the entries are the files
    of the tree. *)
Theorem second_run_skips_everything (source dest : path) (w : world)
    (r1 : SyncResult) (w1 : world) :
  sync_copy source dest w = (Ret r1, w1) →
  res_errors r1 = [] →
  (os_walk source w1 = os_walk source w →
   sync_copy source dest w1
   = (Ret (mk_result [] []
             (map (dst_entry source dest) (walked_files (os_walk source w))) []),
      w1))
  ∧ (source = [mount] →
     wf_tree (src_tree w) = true →
     sync_copy source dest w1
     = (Ret (mk_result [] [] (map rel_str (tree_files [] (src_tree w))) []), w1)).
Proof.
  intros Hrun Herr. split.
  - intros Hwalk. by rewrite (second_run_skips source dest w r1 w1 Hrun Herr Hwalk).
  - intros -> Hwf.
    rewrite (second_run_skips [mount] dest w r1 w1 Hrun Herr).
    + by rewrite walk_mount, dst_entries_tree.
    + apply walk_mount_extends. by eapply sync_copy_extends.
Qed.

Lemma second_run_skips_everything_witness :
  sync_copy src dst (snd (sync_copy src dst empty_dst))
  = (Ret (mk_result [] [] ["a.txt"; "sub/b.txt"] []),
     snd (sync_copy src dst empty_dst)).
Proof.
  assert (sync_copy src dst empty_dst
          = (Ret (mk_result ["a.txt"; "sub/b.txt"] [] [] []),
             snd (sync_copy src dst empty_dst))) as Hrun
    by (vm_compute; reflexivity).
  exact (proj2 (second_run_skips_everything src dst empty_dst _ _ Hrun eq_refl)
           eq_refl eq_refl).
Defined.

(** *** Reports *)

(** A result with one new file and two errors, and a dictionary that binds
    ["skipped"] only. *)
Lemma report_matches_result_witness :
  lines (report_text "2026-11-04"
           (result_dict
              (mk_result ["a.txt"] [] [] ["b.txt -> boom"; "c.txt -> bang"])))
  = [ "Report date (America/Chicago): 2026-11-04";
      "Summary:";
      "  New files:         1";
      "  Overwritten files: 0";
      "  Skipped files:     0";
      "  Errors:            2";
      "";
      "Errors:";
      "  b.txt -> boom";
      "  c.txt -> bang";
      "";
      "End of report" ].
Proof.
  generalize
    (proj1 (proj2 (proj2 (proj2 (proj2 (proj2 (proj2 (proj2
       (report_matches_result
          (result_dict
             (mk_result ["a.txt"] [] [] ["b.txt -> boom"; "c.txt -> bang"]))
          dst "example" empty_dst))))))))).
  vm_compute. intros Hlines. apply Hlines. repeat constructor.
Defined.

Lemma write_report_partial_dict_witness :
  lines (report_text "2026-11-04" {[ "skipped" := ["a.txt"] ]}) !! 2%nat
  = Some "  New files:         0"
  ∧ lines (report_text "2026-11-04" {[ "skipped" := ["a.txt"] ]}) !! 5%nat
    = Some "  Errors:            0"
  ∧ ¬ In "Errors:"
        (lines (report_text "2026-11-04" {[ "skipped" := ["a.txt"] ]})).
Proof.
  pose proof
    (write_report_partial_dict {[ "skipped" := ["a.txt"] ]}
       dst "example" empty_dst) as (_ & Hnew & _ & _ & Herr & _).
  split; [apply Hnew | apply Herr]; vm_compute; reflexivity.
Defined.

(** *** The command line *)

(** C8 (failing input).  The command line names a destination below the
    regular file [/dst/a.txt] and no report directory.  Creating the
    destination fails; the handler of [main] then asks for the error
    report in that same directory, creating it fails again, and the
    exception leaves [main]: nothing was printed and no file was
    written. *)
Theorem no_report_when_destination_cannot_be_created :
  fst (main_body src (dst ++ ["a.txt"; "x"]) (dst ++ ["a.txt"; "x"]) "example"
         (mk_proc_state shorter_copy []))
  = Raise (mk_exn PermissionError
             "Cannot create destination directory: /dst/a.txt/x ([Errno 20] Not a directory: '/dst/a.txt/x')")
  ∧ main args_below_a_file (mk_proc_state shorter_copy [])
    = (Raise (mk_exn NotADirectoryError
                "[Errno 20] Not a directory: '/dst/a.txt/x'"),
       mk_proc_state shorter_copy []).
Proof. split; vm_compute; reflexivity. Qed.

(** Where the report directory can be written to, the failure is
    reported: the source [/nowhere] does not exist, and the report with
    the one error is in [/dst]. *)
Example missing_source_is_reported :
  ∃ w',
    main args_no_source (mk_proc_state empty_dst [])
    = (Ret tt,
       mk_proc_state w'
         [ "Fatal error: Source directory does not exist: /nowhere";
           "Error report written to: /dst/2026-11-04_example.txt" ])
    ∧ ∃ data,
        stat (dst ++ ["2026-11-04_example.txt"]) w' = Some (OFile data)
        ∧ data
          = bytes (String.concat ""
                     (error_report_writes "2026-11-04"
                        "Source directory does not exist: /nowhere")).
Proof.
  eexists. split; [vm_compute; reflexivity|].
  eexists. split; vm_compute; reflexivity.
Qed.

End Claims.

(* ===================================================================== *)
(** * Further properties of the program: on every operating system *)
(* ===================================================================== *)

(** [r] with [ln] more entries in [new], [ls] more in [skipped] and [le]
    more in [errors]; [overwritten] as it was. *)
Definition extend_result (r : SyncResult) (ln ls le : list string)
  : SyncResult :=
  mk_result (res_new r ++ ln) (res_overwritten r)
            (res_skipped r ++ ls) (res_errors r ++ le).

(** [x] is the entry the handler of line 111 records for some exception on
    one of the walked files. *)
Definition is_error_entry (src : path) (walked : list (path * string))
    (x : string) : Prop :=
  ∃ root f e, In (root, f) walked ∧ x = error_entry src root f e.

(** A path as a caller writes it: absolute, or relative to the current
    directory of the process.  The components are names: no [.], no [..]. *)
Inductive path_arg :=
| Absolute (p : path)
| Relative (p : path).

(** The text of the path: [/a/b] for the absolute path of the components
    [a] and [b], [a/b] for the relative one, and the empty string for the
    relative path of no component. *)
Definition path_str (a : path_arg) : string :=
  match a with
  | Absolute p => abs_str p
  | Relative p => rel_str p
  end.

(** [os.path.dirname]: the path without its last component.  The root is
    its own parent, and the parent of a bare file name is the empty
    string. *)
Definition os_path_dirname (a : path_arg) : path_arg :=
  match a with
  | Absolute p => Absolute (removelast p)
  | Relative p => Relative (removelast p)
  end.

(** The absolute path the system resolves a path to, in the current
    directory [cwd]. *)
Definition resolve (cwd : path) (a : path_arg) : path :=
  match a with
  | Absolute p => p
  | Relative p => cwd ++ p
  end.

(** The truth value of a string in a condition: false for the empty
    string. *)
Definition truthy (s : string) : bool := negb (String.eqb s "").

(** A name that is one component of a path: no [/] in it, and no NUL. *)
Definition plain_name (s : string) : bool :=
  forallb (λ c, negb (Ascii.eqb c "/") && negb (Ascii.eqb c "000"))
          (list_ascii_of_string s).

(** The call of [shutil.copy2] that the traversal makes for a walked file
    whose destination does not exist (line 87). *)
Definition copy_of (src dst : path) (e : path * string)
  : path * path * bool :=
  let '(root, f) := e in
  (root ++ [f], mirror_dir src dst root ++ [f], false).

Section more.
Context {world : Type} `{!OS world}.

(** [ensure_parent_dir(path)] (lines 39-42), in a process whose current
    directory is [cwd].  The condition [parent and not os.path.exists(parent)]
    looks at the file system only when [parent] is not the empty string.
    The system calls are made on the path as resolved. *)
Definition ensure_parent_dir (cwd : path) (a : path_arg) : M world unit :=
  let parent := os_path_dirname a in
  if truthy (path_str parent) then
    (ex <- gets (os_path_exists (resolve cwd parent)) ;;
     if negb ex then os_makedirs (resolve cwd parent) else ret tt)
  else ret tt.

Lemma extend_result_nil r : extend_result r [] [] [] = r.
Proof. destruct r. unfold extend_result. simpl. by rewrite !app_nil_r. Qed.

Lemma extend_result_extend r a b c a' b' c' :
  extend_result (extend_result r a b c) a' b' c'
  = extend_result r (a ++ a') (b ++ b') (c ++ c').
Proof. unfold extend_result. simpl. by rewrite <-!app_assoc. Qed.

Lemma is_error_entry_mono src walked walked' x :
  (∀ e, In e walked → In e walked') →
  is_error_entry src walked x → is_error_entry src walked' x.
Proof. intros Hsub (root & f & e & Hin & ->). exists root, f, e. auto. Qed.

(** *** What one turn of the inner loop does to the world *)

(** The world after one file is the world before it, or what the one call
    of [shutil.copy2], on a destination that did not exist and with
    [follow_symlinks=False], made of it. *)
Lemma sync_file_world src dst root dst_dir fname st :
  let st' := snd (sync_file src dst root dst_dir fname st) in
  ss_world st' = ss_world st
  ∨ (os_path_exists (dst_dir ++ [fname]) (ss_world st) = false
     ∧ ∃ o, shutil_copy2 (root ++ [fname]) (dst_dir ++ [fname]) false
              (ss_world st) = (o, ss_world st')).
Proof.
  destruct st as [r w]. unfold_sync. unfold os_path_join. unfold_monad. simpl.
  destruct (os_path_exists (dst_dir ++ [fname]) w) eqn:Hex; simpl.
  - left.
    destruct (os_path_getsize (root ++ [fname]) w) as [s|es]; simpl.
    + destruct (os_path_getsize (dst_dir ++ [fname]) w) as [d|ed]; simpl.
      * by destruct (negb (s =? d)).
      * by destruct (is_OSError ed).
    + destruct (is_OSError es); simpl; [|done].
      destruct (os_path_getsize (dst_dir ++ [fname]) w) as [d|ed]; simpl;
        [done|]. by destruct (is_OSError ed).
  - right. split; [done|].
    destruct (shutil_copy2 (root ++ [fname]) (dst_dir ++ [fname]) false w)
      as [[[]|e] w'] eqn:Hcp; simpl; eauto.
Qed.

(** *** The shape of a result *)

Lemma sync_file_shape src dst root fname st :
  ∃ st' ln ls le,
    sync_file src dst root (mirror_dir src dst root) fname st = (Ret tt, st')
    ∧ ss_results st' = extend_result (ss_results st) ln ls le
    ∧ sublist ln [dst_entry src dst (root, fname)]
    ∧ sublist ls [dst_entry src dst (root, fname)]
    ∧ Forall (is_error_entry src [(root, fname)]) le.
Proof.
  destruct (sync_file_outcome src dst root (mirror_dir src dst root) fname st)
    as (st' & Hrun & Ho).
  exists st'. unfold dst_entry, os_path_join.
  destruct Ho as [_ _ Hr|n _ _ _ _ Hr|e Hr].
  - eexists [_], [], []. split; [done|]. rewrite Hr. unfold extend_result.
    simpl. rewrite !app_nil_r. split; [done|]. split; [done|].
    split; [apply sublist_nil_l|constructor].
  - eexists [], [_], []. split; [done|]. rewrite Hr. unfold extend_result.
    simpl. rewrite !app_nil_r. split; [done|]. split; [apply sublist_nil_l|].
    split; [done|constructor].
  - eexists [], [], [_]. split; [done|]. rewrite Hr. unfold extend_result.
    simpl. rewrite !app_nil_r. split; [done|].
    split; [apply sublist_nil_l|]. split; [apply sublist_nil_l|].
    constructor; [|constructor]. exists root, fname, e. split; [by left|done].
Qed.

Lemma sync_files_shape src dst root files st :
  ∃ st' ln ls le,
    for_each files (sync_file src dst root (mirror_dir src dst root)) st
      = (Ret tt, st')
    ∧ ss_results st' = extend_result (ss_results st) ln ls le
    ∧ sublist ln (map (λ f, dst_entry src dst (root, f)) files)
    ∧ sublist ls (map (λ f, dst_entry src dst (root, f)) files)
    ∧ Forall (is_error_entry src (map (λ f, (root, f)) files)) le.
Proof.
  revert st. induction files as [|f files IH]; intros st.
  - exists st, [], [], []. simpl. rewrite extend_result_nil.
    repeat split; (done || constructor).
  - destruct (sync_file_shape src dst root f st)
      as (st1 & ln1 & ls1 & le1 & Hrun1 & Hr1 & Hn1 & Hs1 & He1).
    destruct (IH st1) as (st' & ln & ls & le & Hrun & Hr & Hn & Hs & He).
    exists st', (ln1 ++ ln), (ls1 ++ ls), (le1 ++ le).
    rewrite for_each_cons, Hrun1, Hrun. split; [done|].
    split; [by rewrite Hr, Hr1, extend_result_extend|].
    cbn [map].
    split; [by apply (sublist_app ln1 [_] ln)|].
    split; [by apply (sublist_app ls1 [_] ls)|].
    apply Forall_app. split.
    + eapply Forall_impl; [exact He1|]. intros x. apply is_error_entry_mono.
      intros e [<-|[]]. by left.
    + eapply Forall_impl; [exact He|]. intros x. apply is_error_entry_mono.
      intros e Hin. by right.
Qed.

Lemma sync_dirs_shape src dst triples st :
  ∃ ln ls le,
    ss_results (snd (for_each triples (sync_dir src dst) st))
      = extend_result (ss_results st) ln ls le
    ∧ sublist ln (map (dst_entry src dst) (walked_files triples))
    ∧ sublist ls (map (dst_entry src dst) (walked_files triples))
    ∧ Forall (is_error_entry src (walked_files triples)) le.
Proof.
  revert st. induction triples as [|[[root dirs] files] triples IH]; intros st.
  - exists [], [], []. simpl. rewrite extend_result_nil.
    repeat split; (done || constructor).
  - rewrite for_each_cons. unfold sync_dir at 1. unfold sys, zoom, bind.
    destruct (os_makedirs (mirror_dir src dst root) (ss_world st))
      as [[[]|e] w1].
    + destruct (sync_files_shape src dst root files (set_world w1 st))
        as (st1 & ln1 & ls1 & le1 & Hrun1 & Hr1 & Hn1 & Hs1 & He1).
      rewrite Hrun1.
      destruct (IH st1) as (ln & ls & le & Hr & Hn & Hs & He).
      exists (ln1 ++ ln), (ls1 ++ ls), (le1 ++ le).
      split; [by rewrite Hr, Hr1, extend_result_extend|].
      simpl. rewrite !map_app, !map_map.
      split; [by apply sublist_app|]. split; [by apply sublist_app|].
      apply Forall_app. split.
      * eapply Forall_impl; [exact He1|]. intros x. apply is_error_entry_mono.
        intros e Hin. apply in_or_app. by left.
      * eapply Forall_impl; [exact He|]. intros x. apply is_error_entry_mono.
        intros e Hin. apply in_or_app. by right.
    + exists [], [], []. simpl. rewrite extend_result_nil.
      repeat split; (done || apply sublist_nil_l || constructor).
Qed.

Lemma sync_copy_shape src dst w r w' :
  sync_copy src dst w = (Ret r, w') →
  ∃ ln ls le,
    r = mk_result ln [] ls le
    ∧ sublist ln (map (dst_entry src dst) (walked_files (os_walk src w)))
    ∧ sublist ls (map (dst_entry src dst) (walked_files (os_walk src w)))
    ∧ Forall (is_error_entry src (walked_files (os_walk src w))) le.
Proof.
  intros Hrun.
  assert (os_path_exists src w = true ∧ os_path_isdir src w = true) as [Hex Hdir].
  { unfold sync_copy, os_path_abspath in Hrun.
    destruct (os_path_exists src w); [|done].
    by destruct (os_path_isdir src w). }
  rewrite sync_copy_checked in Hrun by done.
  destruct (sync_dirs_shape src dst (os_walk src w) (mk_sync_state empty_result w))
    as (ln & ls & le & Hr & Hn & Hs & He).
  destruct (for_each (os_walk src w) (sync_dir src dst)
              (mk_sync_state empty_result w)) as [[[]|e] st']; [|done].
  injection Hrun as <- _. exists ln, ls, le. simpl in Hr. by rewrite Hr.
Qed.

End more.

Section extras.
Context {world : Type} `{!OS world}.

(** X1 (nothing is ever reported as overwritten).  Whatever the source,
    the destination and the system, a result that [sync_copy] returns has
    an empty [overwritten] list: the two branches that would append to it
    raise before they do. *)
Theorem overwritten_is_always_empty (src dst : path) (w w' : world)
    (r : SyncResult) :
  sync_copy src dst w = (Ret r, w') → res_overwritten r = [].
Proof.
  intros Hrun.
  by destruct (sync_copy_shape src dst w r w' Hrun) as (ln & ls & le & -> & _).
Qed.


(** X3 (the mirror of a walked directory).  The source root is mirrored
    onto the destination root itself, and the directory [src/rel] onto
    [dst/rel]. *)
Theorem mirror_of_walked_directory (src dst rel : path) :
  rel ≠ ["."] →
  mirror_dir src dst src = dst
  ∧ mirror_dir src dst (src ++ rel) = dst ++ rel.
Proof.
  intros Hrel. split; [|by apply mirror_dir_app].
  rewrite <-(app_nil_r src) at 2. rewrite mirror_dir_app by done.
  apply app_nil_r.
Qed.

(** *** The two report writers *)

Lemma error_report_text_eq date_str error_message :
  String.concat "" (error_report_writes date_str error_message)
  = report_text date_str {[ "errors" := [error_message] ]}.
Proof.
  rewrite concat_join, report_text_parts. unfold dict_get.
  rewrite !lookup_singleton_ne by done. rewrite lookup_singleton_eq.
  unfold error_report_writes, summary_lines, errors_section.
  unfold default, id. cbn [length map join fold_right].
  change (str_int 0) with "0". change (str_int 1) with "1".
  rewrite !append_assoc, !append_nil_l, !append_nil_r. reflexivity.
Qed.

(** X4 (the error report is the report of one error).  On every world,
    [write_error_report] with a message does what [write_report] does with
    the dictionary that binds ["errors"] to the list of that one message:
    the same path, the same text, the same outcome. *)
Theorem error_report_is_report_of_one_error (error_message : string)
    (report_directory : path) (file_name : string) (w : world) :
  write_error_report error_message report_directory file_name w
  = write_report {[ "errors" := [error_message] ]} report_directory file_name w.
Proof.
  rewrite write_error_report_unfold, write_report_unfold. cbv zeta.
  by rewrite error_report_text_eq.
Qed.

(** X5 (the layout of an error report).  For a message without a line
    feed, the text [write_error_report] writes has these eleven lines: the
    date, the summary with the counts 0, 0, 0 and 1, and the one error. *)
Theorem error_report_layout (d : date) (error_message : string) :
  no_newline error_message = true →
  lines (String.concat "" (error_report_writes (strftime_Ymd d) error_message))
  = [ "Report date (America/Chicago): " +:+ strftime_Ymd d;
      "Summary:";
      "  New files:         0";
      "  Overwritten files: 0";
      "  Skipped files:     0";
      "  Errors:            1";
      "";
      "Errors:";
      "  " +:+ error_message;
      "";
      "End of report" ].
Proof. intros Hmsg. apply error_report_lines; [apply strftime_no_newline|done]. Qed.

(** *** The command line *)


(** X7 (a run that succeeds).  When the source is a directory, the
    destination can be created, [sync_copy] returns a result and
    [write_report] the path of the report, [main] returns: it has printed
    the two directories, the path of the report and the four counts, and
    the report went to the destination unless a report directory was
    given. *)
Theorem main_success (args : Args) (w w1 w2 w3 : world) (out : list string)
    (r : SyncResult) (report_path : path) :
  os_path_exists (args_src args) w = true →
  os_path_isdir (args_src args) w = true →
  os_makedirs (args_dst args) w = (Ret tt, w1) →
  sync_copy (args_src args) (args_dst args) w1 = (Ret r, w2) →
  write_report (result_dict r)
    (default (args_dst args) (args_report_dir args)) (args_file_name args) w2
    = (Ret report_path, w3) →
  main args (mk_proc_state w out)
  = (Ret tt,
     mk_proc_state w3
       (out ++ [ "Copying from: " +:+ abs_str (args_src args);
                 "Copying to:   " +:+ abs_str (args_dst args);
                 nl +:+ "Done.";
                 "Report written to: " +:+ abs_str report_path;
                 "New: " +:+ str_int (length (res_new r)) +:+ ", "
                   +:+ "Overwritten: "
                   +:+ str_int (length (res_overwritten r)) +:+ ", "
                   +:+ "Skipped: " +:+ str_int (length (res_skipped r))
                   +:+ ", "
                   +:+ "Errors: " +:+ str_int (length (res_errors r)) ])).
Proof.
  intros Hex Hdir Hmk Hsync Hrep.
  unfold main, main_body, io, print. unfold_monad. simpl.
  rewrite Hex. simpl. rewrite Hdir. simpl. rewrite Hmk. simpl. rewrite Hsync. simpl.
  rewrite Hrep. simpl. by rewrite <-!app_assoc.
Qed.


(** X9 (a destination that cannot be created).  When creating the
    destination raises, [main] does not start the copy: the exception is
    reported under the message [Cannot create destination directory:
    <destination> (<its message>)], where the error report can be
    written. *)
Theorem main_destination_failure (args : Args) (w w1 w2 : world)
    (out : list string) (e : exn) (report_path : path) :
  let message :=
    "Cannot create destination directory: " +:+ abs_str (args_dst args)
      +:+ " (" +:+ exn_str e +:+ ")" in
  os_path_exists (args_src args) w = true →
  os_path_isdir (args_src args) w = true →
  os_makedirs (args_dst args) w = (Raise e, w1) →
  write_error_report message
    (default (args_dst args) (args_report_dir args)) (args_file_name args) w1
    = (Ret report_path, w2) →
  main args (mk_proc_state w out)
  = (Ret tt,
     mk_proc_state w2
       (out ++ [ "Fatal error: " +:+ message;
                 "Error report written to: " +:+ abs_str report_path ])).
Proof.
  intros message Hex Hdir Hmk Hrep.
  unfold main, main_body, main_handler, io, print, os_path_abspath.
  unfold_monad. simpl. rewrite Hex. simpl. rewrite Hdir. simpl. rewrite Hmk. simpl.
  fold message. rewrite Hrep. simpl. by rewrite <-app_assoc.
Qed.


(** *** From the result of a run to its report *)

Lemma dict_get_result_dict (r : SyncResult) :
  dict_get (result_dict r) "new" = res_new r
  ∧ dict_get (result_dict r) "overwritten" = res_overwritten r
  ∧ dict_get (result_dict r) "skipped" = res_skipped r
  ∧ dict_get (result_dict r) "errors" = res_errors r.
Proof.
  unfold result_dict, dict_get.
  repeat split;
    repeat (rewrite lookup_insert_ne by done); by rewrite lookup_insert_eq.
Qed.


End extras.

(* ===================================================================== *)
(** * Further properties of the program: on the concrete file system *)
(* ===================================================================== *)

Module Further.
Import TreeFS TreeFSFacts Examples.

(** [w'] is [w] and more: what was there is kept, and the calls of
    [shutil.copy2] since are some of the calls [cands], in their order,
    each on a destination that did not exist in [w]. *)
Definition grows (cands : list (path * path * bool)) (w w' : world) : Prop :=
  extends w w'
  ∧ ∃ l, copy_log w' = copy_log w ++ l
         ∧ sublist l cands
         ∧ Forall (λ c, exists_ c.1.2 w = false) l.

Lemma grows_extends cands w w' :
  extends w w' → copy_log w' = copy_log w → grows cands w w'.
Proof.
  intros Hext Hlog. split; [done|]. exists []. rewrite app_nil_r.
  split; [done|]. split; [apply sublist_nil_l|constructor].
Qed.

Lemma grows_trans c1 c2 w1 w2 w3 :
  grows c1 w1 w2 → grows c2 w2 w3 → grows (c1 ++ c2) w1 w3.
Proof.
  intros (Hext1 & l1 & Hlog1 & Hsub1 & Hall1) (Hext2 & l2 & Hlog2 & Hsub2 & Hall2).
  split; [by eapply extends_trans|]. exists (l1 ++ l2).
  split; [by rewrite Hlog2, Hlog1, <-app_assoc|].
  split; [by apply sublist_app|].
  apply Forall_app. split; [done|].
  eapply Forall_impl; [exact Hall2|]. intros c Hex. cbv beta in *.
  destruct (exists_ c.1.2 w1) eqn:Hex1; [|done].
  by rewrite (exists_extends _ _ _ Hext1 Hex1) in Hex.
Qed.

(** A call of [shutil.copy2] on a destination that does not exist keeps
    what is there, whether it returns or raises. *)
Lemma copy2_any s d b w o w' :
  exists_ d w = false →
  copy2 s d b w = (o, w') →
  extends w w' ∧ copy_log w' = copy_log w ++ [(s, d, b)].
Proof.
  unfold exists_. destruct (stat d w) as [?|] eqn:Hd; [done|]. intros _.
  unfold copy2, log_copy, write_file. unfold_monad.
  assert (∀ p l, stat p (mk_world (src_tree w) (files w) l (today w)) = stat p w)
    as Hstat by done.
  unfold isdir. rewrite !Hstat, Hd.
  destruct (stat s w) as [[data|]|]; try (by intros [= <- <-]).
  destruct (decide (s = d)); [by intros [= <- <-]|].
  destruct (readable s _); [|by intros [= <- <-]].
  rewrite !Hstat, Hd.
  destruct (stat (dirname d) w) as [[?|]|]; try (by intros [= <- <-]).
  destruct (in_mount d) eqn:Hmnt; [by intros [= <- <-]|].
  intros [= <- <-]. split; [|done].
  repeat split; simpl. apply insert_subseteq.
  unfold stat in Hd. rewrite Hmnt in Hd. by destruct d.
Qed.

Lemma sync_file_grows src dst root dst_dir fname st :
  grows [(root ++ [fname], dst_dir ++ [fname], false)]
    (ss_world st) (ss_world (snd (sync_file src dst root dst_dir fname st))).
Proof.
  destruct (sync_file_world src dst root dst_dir fname st)
    as [->|(Hex & o & Hcp)].
  - by apply grows_extends.
  - destruct (copy2_any _ _ _ _ _ _ Hex Hcp) as [Hext Hlog].
    split; [done|]. eexists. split; [exact Hlog|]. split; [done|].
    by repeat constructor.
Qed.

Lemma sync_files_grow src dst root dst_dir files st :
  grows (map (λ f, (root ++ [f], dst_dir ++ [f], false)) files) (ss_world st)
    (ss_world (snd (for_each files (sync_file src dst root dst_dir) st))).
Proof.
  revert st. induction files as [|f files IH]; intros st.
  - by apply grows_extends.
  - rewrite for_each_cons.
    pose proof (sync_file_grows src dst root dst_dir f st) as H1.
    pose proof (sync_file_returns src dst root dst_dir f st) as Hret.
    destruct (sync_file src dst root dst_dir f st) as [o st1].
    simpl in Hret, H1. subst o.
    apply (grows_trans [_] _ _ _ _ H1 (IH st1)).
Qed.

Lemma sync_dirs_grow src dst triples st :
  grows (map (copy_of src dst) (walked_files triples)) (ss_world st)
    (ss_world (snd (for_each triples (sync_dir src dst) st))).
Proof.
  revert st. induction triples as [|[[root dirs] files] triples IH]; intros st.
  - by apply grows_extends.
  - rewrite for_each_cons. unfold sync_dir at 1. unfold sys, zoom, bind.
    change (os_makedirs (mirror_dir src dst root) (ss_world st))
      with (makedirs (mirror_dir src dst root) (ss_world st)).
    destruct (makedirs (mirror_dir src dst root) (ss_world st))
      as [o w1] eqn:Hmk.
    destruct (makedirs_extends _ _ _ _ Hmk) as (Hext & Hlog & _).
    destruct o as [[]|e].
    + pose proof (sync_files_grow src dst root (mirror_dir src dst root) files
                    (set_world w1 st)) as Hfiles.
      destruct (for_each files _ (set_world w1 st)) as [[[]|e] st1] eqn:Hrun.
      * simpl. rewrite map_app, map_map.
        apply (grows_trans _ _ _ (ss_world st1)); [|apply IH].
        apply (grows_trans [] _ _ _ _ (grows_extends [] _ _ Hext Hlog) Hfiles).
      * pose proof (sync_files_total_len src dst root
                      (mirror_dir src dst root) files (set_world w1 st))
          as (? & Hret & _).
        rewrite Hrun in Hret. done.
    + simpl. by apply grows_extends.
Qed.

Lemma sync_copy_grows src dst w :
  grows (map (copy_of src dst) (walked_files (walk src w)))
    w (snd (sync_copy src dst w)).
Proof.
  unfold sync_copy, os_path_abspath.
  destruct (os_path_exists src w); [|by apply grows_extends].
  destruct (os_path_isdir src w); [|by apply grows_extends]. simpl.
  pose proof (sync_dirs_grow src dst (walk src w) (mk_sync_state empty_result w))
    as Hloop.
  change (os_walk src w) with (walk src w).
  by destruct (for_each (walk src w) _ _) as [[[]|e] st'].
Qed.

(** X11 (nothing that is there is changed or removed).  Whatever the
    source and the destination, and whether the run returns or raises:
    every path that named an object before the run names the same object
    after it.  No file or directory, of the source or of the destination,
    is rewritten, truncated, replaced or deleted; all a run does to the
    file system is add objects. *)
Theorem sync_copy_keeps_what_is_there (src dst : path) (w : world)
    (p : path) (o : obj) :
  stat p w = Some o → stat p (snd (sync_copy src dst w)) = Some o.
Proof.
  destruct (sync_copy_grows src dst w) as [Hext _]. by apply stat_extends.
Qed.

(** X12 (what is copied).  Neither of the source and the destination is
    inside the other.  The calls of [shutil.copy2] a run makes are, in the
    order of the walk, calls for walked files: for the file [f] of the
    walked directory [root], from [root/f] to [f] in the mirror of [root],
    with [follow_symlinks=False]; there is at most one call for each entry
    of the walk, and none on a destination that existed when the run
    started. *)
Theorem copies_only_onto_new_paths (src dst : path) (w : world) :
  ¬ src `prefix_of` dst →
  ¬ dst `prefix_of` src →
  ∃ l,
    copy_log (snd (sync_copy src dst w)) = copy_log w ++ l
    ∧ sublist l (map (copy_of src dst) (walked_files (os_walk src w)))
    ∧ Forall (λ c, exists_ c.1.2 w = false) l.
Proof. intros _ _. by destruct (sync_copy_grows src dst w) as [_ Hlog]. Qed.

(** *** Reports on disk *)

Lemma write_file_returns p data w w' :
  write_file p data w = (Ret tt, w') →
  stat p w' = Some (OFile data)
  ∧ (∀ q, q ≠ p → stat q w' = stat q w)
  ∧ today w' = today w.
Proof.
  unfold write_file.
  destruct (stat p w) as [[?|]|] eqn:Hp; try done;
    (destruct (stat (dirname p) w) as [[?|]|]; try done;
     destruct (in_mount p) eqn:Hmnt; try done;
     intros [= <-];
     assert (p ≠ []) as Hne by (by intros ->);
     split; [|split; [|done]];
     [ unfold stat; simpl; rewrite Hmnt, lookup_insert_eq; by destruct p
     | intros q Hq; unfold stat; simpl;
       destruct q as [|s q]; [done|];
       destruct (in_mount (s :: q)); [done|];
       by rewrite lookup_insert_ne ]).
Qed.

Lemma report_back (results : gmap string (list string))
    (report_directory : path) (file_name : string) (w w' : world)
    (report_path : path) :
  write_report results report_directory file_name w = (Ret report_path, w') →
  report_path
  = report_directory ++ [strftime_Ymd (today w) +:+ "_" +:+ file_name +:+ ".txt"]
  ∧ stat report_path w'
    = Some (OFile (bytes (report_text (strftime_Ymd (today w)) results)))
  ∧ all_dirs report_directory w'
  ∧ ∀ q o, q ≠ report_path → stat q w = Some o → stat q w' = Some o.
Proof.
  rewrite write_report_unfold. cbv zeta.
  change (os_makedirs report_directory w) with (makedirs report_directory w).
  change (datetime_now w) with (today w).
  destruct (makedirs report_directory w) as [[[]|e] w1] eqn:Hmk; [|done].
  match goal with
  | |- context [open_write ?p ?t w1] =>
      change (open_write p t w1) with (write_file p (bytes t) w1);
      destruct (write_file p (bytes t) w1) as [[[]|e] w2] eqn:Hwr; [|done]
  end.
  intros [= <- <-].
  destruct (makedirs_extends _ _ _ _ Hmk) as (Hext & _ & Hdirs).
  destruct (write_file_returns _ _ _ _ Hwr) as (Hfile & Hother & _).
  split; [done|]. split; [done|]. split.
  - intros k Hk. rewrite Hother; [by apply Hdirs|].
    intros Heq. apply (f_equal length) in Heq.
    rewrite length_take, length_app in Heq. simpl in Heq. lia.
  - intros q o Hq Hst. rewrite Hother by done. by eapply stat_extends.
Qed.

(** X13 (a report can be read back).  The file name is one component of
    a path: it has no [/] in it and no NUL.  When [write_report] returns,
    the path it returns is [<report directory>/<date>_<file name>.txt]; the
    file at that path holds the text of the report and nothing else,
    whatever was there before; the report directory and everything above
    it are directories; and every other object is as it was. *)
Theorem report_can_be_read_back (results : gmap string (list string))
    (report_directory : path) (file_name : string) (w w' : world)
    (report_path : path) :
  plain_name file_name = true →
  write_report results report_directory file_name w = (Ret report_path, w') →
  report_path
  = report_directory ++ [strftime_Ymd (today w) +:+ "_" +:+ file_name +:+ ".txt"]
  ∧ stat report_path w'
    = Some (OFile (bytes (report_text (strftime_Ymd (today w)) results)))
  ∧ all_dirs report_directory w'
  ∧ ∀ q o, q ≠ report_path → stat q w = Some o → stat q w' = Some o.
Proof. intros _. apply report_back. Qed.

Lemma write_report_today results report_directory file_name w p w' :
  write_report results report_directory file_name w = (Ret p, w') →
  today w' = today w.
Proof.
  rewrite write_report_unfold. cbv zeta.
  change (os_makedirs report_directory w) with (makedirs report_directory w).
  destruct (makedirs report_directory w) as [[[]|e] w1] eqn:Hmk; [|done].
  match goal with
  | |- context [open_write ?q ?t w1] =>
      change (open_write q t w1) with (write_file q (bytes t) w1);
      destruct (write_file q (bytes t) w1) as [[[]|e] w2] eqn:Hwr; [|done]
  end.
  intros [= _ <-].
  destruct (makedirs_extends _ _ _ _ Hmk) as ((_ & Htoday & _) & _).
  destruct (write_file_returns _ _ _ _ Hwr) as (_ & _ & Htoday').
  congruence.
Qed.

(** X16 (the last report of the day wins).  Two reports written one after
    the other into the same directory under the same file name go to the
    same path, and the file then holds the text of the second one. *)
Theorem second_report_replaces_first
    (results1 results2 : gmap string (list string))
    (report_directory : path) (file_name : string) (w w1 w2 : world)
    (path1 path2 : path) :
  write_report results1 report_directory file_name w = (Ret path1, w1) →
  write_report results2 report_directory file_name w1 = (Ret path2, w2) →
  path2 = path1
  ∧ stat path1 w1
    = Some (OFile (bytes (report_text (strftime_Ymd (today w)) results1)))
  ∧ stat path1 w2
    = Some (OFile (bytes (report_text (strftime_Ymd (today w)) results2))).
Proof.
  intros H1 H2.
  pose proof (write_report_today _ _ _ _ _ _ H1) as Htoday.
  destruct (report_back _ _ _ _ _ _ H1) as (-> & Hf1 & _).
  destruct (report_back _ _ _ _ _ _ H2) as (-> & Hf2 & _).
  rewrite Htoday in *. done.
Qed.

(** *** ensure_parent_dir *)

Lemma truthy_false (s : string) : truthy s = false ↔ s = "".
Proof.
  unfold truthy. rewrite negb_false_iff. apply String.eqb_eq.
Qed.


(** *** The properties at work *)

(** The command line [file_sync.py /src /dst]. *)
Definition args_plain : Args := mk_args src dst None "example".

(** The command line [file_sync.py /src /dst/a.txt/x -r /reports]. *)
Definition args_with_report_dir : Args :=
  mk_args src (dst ++ ["a.txt"; "x"]) (Some ["reports"]) "example".

Lemma overwritten_is_always_empty_witness :
  res_overwritten
    (mk_result ["sub/b.txt"] [] [] ["a.txt -> name 'false' is not defined"])
  = [].
Proof.
  apply (overwritten_is_always_empty src dst stale_copy
           (snd (sync_copy src dst stale_copy))).
  vm_compute. reflexivity.
Defined.


Lemma mirror_of_walked_directory_witness :
  mirror_dir src dst src = dst
  ∧ mirror_dir src dst (src ++ ["sub"]) = dst ++ ["sub"].
Proof. apply (mirror_of_walked_directory src dst ["sub"]). discriminate. Defined.

Lemma error_report_layout_witness :
  lines (String.concat ""
           (error_report_writes "2026-11-04" "Source not found: /nowhere"))
  = [ "Report date (America/Chicago): 2026-11-04";
      "Summary:";
      "  New files:         0";
      "  Overwritten files: 0";
      "  Skipped files:     0";
      "  Errors:            1";
      "";
      "Errors:";
      "  Source not found: /nowhere";
      "";
      "End of report" ].
Proof.
  apply (error_report_layout clock "Source not found: /nowhere").
  reflexivity.
Defined.


Lemma main_success_witness :
  fst (main args_plain (mk_proc_state empty_dst [])) = Ret tt
  ∧ ps_stdout (snd (main args_plain (mk_proc_state empty_dst [])))
    = [ "Copying from: /src";
        "Copying to:   /dst";
        nl +:+ "Done.";
        "Report written to: /dst/2026-11-04_example.txt";
        "New: 2, Overwritten: 0, Skipped: 0, Errors: 0" ].
Proof.
  rewrite (main_success args_plain empty_dst
             (snd (makedirs dst empty_dst))
             (snd (sync_copy src dst (snd (makedirs dst empty_dst))))
             (snd (write_report
                     (result_dict (mk_result ["a.txt"; "sub/b.txt"] [] [] []))
                     dst "example"
                     (snd (sync_copy src dst (snd (makedirs dst empty_dst))))))
             [] (mk_result ["a.txt"; "sub/b.txt"] [] [] [])
             (dst ++ ["2026-11-04_example.txt"]));
    try (vm_compute; reflexivity).
  split; reflexivity.
Defined.


Lemma main_destination_failure_witness :
  fst (main args_with_report_dir (mk_proc_state shorter_copy [])) = Ret tt
  ∧ ps_stdout (snd (main args_with_report_dir (mk_proc_state shorter_copy [])))
    = [ "Fatal error: Cannot create destination directory: /dst/a.txt/x ([Errno 20] Not a directory: '/dst/a.txt/x')";
        "Error report written to: /reports/2026-11-04_example.txt" ].
Proof.
  rewrite (main_destination_failure args_with_report_dir shorter_copy
             shorter_copy
             (snd (write_error_report
                     "Cannot create destination directory: /dst/a.txt/x ([Errno 20] Not a directory: '/dst/a.txt/x')"
                     ["reports"] "example" shorter_copy))
             [] (ENOTDIR (dst ++ ["a.txt"; "x"]))
             ["reports"; "2026-11-04_example.txt"]);
    try (vm_compute; reflexivity).
  split; reflexivity.
Defined.


Lemma sync_copy_keeps_what_is_there_witness :
  stat (dst ++ ["a.txt"]) (snd (sync_copy src dst stale_copy))
  = Some (OFile (bytes "xy"))
  ∧ stat (src ++ ["sub"; "b.txt"]) (snd (sync_copy src dst stale_copy))
    = Some (OFile (bytes "0123456789")).
Proof.
  split; apply sync_copy_keeps_what_is_there; reflexivity.
Defined.

Lemma copies_only_onto_new_paths_witness :
  ∃ l,
    copy_log (snd (sync_copy src dst stale_copy)) = copy_log stale_copy ++ l
    ∧ sublist l [ (src ++ ["a.txt"], dst ++ ["a.txt"], false);
                  (src ++ ["sub"; "b.txt"], dst ++ ["sub"; "b.txt"], false) ]
    ∧ Forall (λ c, exists_ c.1.2 stale_copy = false) l.
Proof.
  apply (copies_only_onto_new_paths src dst stale_copy);
    intros [k Hk]; discriminate Hk.
Defined.

Lemma report_can_be_read_back_witness :
  stat ["reports"; "daily"; "2026-11-04_example.txt"]
       (snd (write_report (result_dict (mk_result ["a.txt"] [] [] []))
               ["reports"; "daily"] "example" empty_dst))
  = Some (OFile (bytes (report_text "2026-11-04"
                          (result_dict (mk_result ["a.txt"] [] [] [])))))
  ∧ all_dirs ["reports"; "daily"]
      (snd (write_report (result_dict (mk_result ["a.txt"] [] [] []))
              ["reports"; "daily"] "example" empty_dst)).
Proof.
  pose proof
    (report_can_be_read_back (result_dict (mk_result ["a.txt"] [] [] []))
       ["reports"; "daily"] "example" empty_dst
       (snd (write_report (result_dict (mk_result ["a.txt"] [] [] []))
               ["reports"; "daily"] "example" empty_dst))
       ["reports"; "daily"; "2026-11-04_example.txt"] eq_refl)
    as Hback.
  destruct Hback as (_ & Hfile & Hdirs & _); [vm_compute; reflexivity|].
  split; [exact Hfile | exact Hdirs].
Defined.


Lemma second_report_replaces_first_witness :
  stat (dst ++ ["2026-11-04_example.txt"])
       (snd (write_report {[ "new" := ["b.txt"] ]} dst "example"
               (snd (write_report {[ "new" := ["a.txt"; "c.txt"] ]} dst
                       "example" empty_dst))))
  = Some (OFile (bytes (report_text "2026-11-04" {[ "new" := ["b.txt"] ]}))).
Proof.
  pose proof
    (second_report_replaces_first
       {[ "new" := ["a.txt"; "c.txt"] ]} {[ "new" := ["b.txt"] ]}
       dst "example" empty_dst
       (snd (write_report {[ "new" := ["a.txt"; "c.txt"] ]} dst "example"
               empty_dst))
       (snd (write_report {[ "new" := ["b.txt"] ]} dst "example"
               (snd (write_report {[ "new" := ["a.txt"; "c.txt"] ]} dst
                       "example" empty_dst))))
       (dst ++ ["2026-11-04_example.txt"])
       (dst ++ ["2026-11-04_example.txt"]))
    as Htwice.
  destruct Htwice as (_ & _ & Hsecond); [vm_compute; reflexivity..|].
  exact Hsecond.
Defined.


End Further.
